(** * restclient: a shallow embedding of the REST client and its Result

    The development follows the Go package [restclient].  The repository holds
    two variants of the same file: the one with [checkURL], [requestToMap] and
    lazy extraction in [Value] is embedded at the top level; the variant of
    [client.go] (no URL check, query map decoded straight into strings, no
    extraction) lives in [Module ClientGo].

    Everything the package takes from outside (encoding/json, net/url, fmt's
    [%v], the resty transport) is an operation of a class, so that the
    theorems hold for whatever these libraries compute; [Module Demo]
    instantiates the classes with small executable codecs to evaluate the
    package on concrete documents. *)

From Stdlib Require Import ZArith String Ascii List Lia Permutation.
From stdpp Require Import base option list gmap strings pretty fin_maps.

Set Warnings "-register-all".

Local Open Scope string_scope.
Local Open Scope Z_scope.

(** ** Go values *)

(** An [error] interface value; [None] is [nil]. The text is what
    [err.Error()] returns. *)
Definition error := option string.

(** A library call that returns either a value or an error. *)
Inductive result (A : Type) : Type :=
| Ok (a : A)
| Err (e : string).
Arguments Ok {A} a.
Arguments Err {A} e.

(** A call returns, or panics on a nil pointer dereference. *)
Inductive outcome (A : Type) : Type :=
| Ret (a : A)
| Panic.
Arguments Ret {A} a.
Arguments Panic {A}.

#[global] Instance outcome_ret : MRet outcome := @Ret.
#[global] Instance outcome_bind : MBind outcome :=
  fun A B f m => match m with Ret a => f a | Panic => Panic end.

(** The line feed of the format strings. *)
Definition nl : string := String "010"%char "".

(** ** resty.Response

    The package reads three things off a response: the status code, the
    status line and the body. [resp] fields hold a [*resty.Response]; its
    accessors read a field of the receiver first, so a nil receiver panics. *)
Record resty_Response : Type := {
  resp_StatusCode : Z;
  resp_Status : string;
  resp_Body : string
}.

Definition deref {A B : Type} (p : option A) (f : A -> B) : outcome B :=
  match p with
  | Some a => Ret (f a)
  | None => Panic
  end.

Definition StatusCode (r : option resty_Response) : outcome Z := deref r resp_StatusCode.
Definition Status (r : option resty_Response) : outcome string := deref r resp_Status.
Definition Body (r : option resty_Response) : outcome string := deref r resp_Body.

Definition StatusOK : Z := 200.

(** ** net/http: the request the options mutate

    [Header] is [map[string][]string]; keys are taken in canonical form
    (["Authorization"] is its own canonical form). *)
Definition Header_Add (key value : string) (h : gmap string (list string))
  : gmap string (list string) :=
  <[key := (default [] (h !! key) ++ [value])%list]> h.

Definition Header_Get (key : string) (h : gmap string (list string)) : string :=
  match h !! key with
  | Some (v :: _) => v
  | _ => ""
  end.

Record http_Request : Type := {
  Header : gmap string (list string)
}.

(** ** The decoded JSON document

    What encoding/json builds for an [interface{}] destination: nil, bool,
    float64 (the type [F]), string, slice and map. Members of an object are
    kept in document order; storing them into a Go map is [store_members]. *)
Inductive jvalue (F : Type) : Type :=
| JNull
| JBool (b : bool)
| JNum (f : F)
| JStr (s : string)
| JArr (l : list (jvalue F))
| JObj (members : list (string * jvalue F)).
Arguments JNull {F}.
Arguments JBool {F} b.
Arguments JNum {F} f.
Arguments JStr {F} s.
Arguments JArr {F} l.
Arguments JObj {F} members.

(** The decoder's reading of a text: invalid JSON, or a document together
    with the conversion error it recorded on the way, if any (a number out of
    float64's range). *)
Inductive decoded (F : Type) : Type :=
| Invalid (e : string)
| Decoded (v : jvalue F) (conv : error).
Arguments Invalid {F} e.
Arguments Decoded {F} v conv.

(** The name encoding/json gives a value's kind in a type error. *)
Definition kind_name {F : Type} (v : jvalue F) : string :=
  match v with
  | JNull => "null"
  | JBool _ => "bool"
  | JNum _ => "number"
  | JStr _ => "string"
  | JArr _ => "array"
  | JObj _ => "object"
  end.

(** ** net/url *)
Record URL : Type := {
  Scheme : string;
  Opaque : string;
  Host : string;
  Path : string;
  RawPath : string;
  RawQuery : string;
  Fragment : string
}.

Definition set_Path (p : string) (u : URL) : URL :=
  {| Scheme := Scheme u; Opaque := Opaque u; Host := Host u; Path := p;
     RawPath := RawPath u; RawQuery := RawQuery u; Fragment := Fragment u |}.

(** ** The libraries the package calls *)
Class GoLib : Type := {
  (** float64 *)
  float64 : Type;
  (** encoding/json: validity scan and generic decoding of a text *)
  json_decode : string -> decoded float64;
  (** [json.Marshal] of a decoded value *)
  json_Marshal_value : jvalue float64 -> result string;
  (** [fmt.Sprintf("%v", v)] of a decoded value *)
  Sprintf_v : jvalue float64 -> string;
  (** [url.Parse] and the [String] method of a URL *)
  url_Parse : string -> result URL;
  URL_String : URL -> string
}.

(** [json.Marshal(request)] for a payload type. *)
Class Payload (P : Type) : Type := json_Marshal : P -> result string.

(** [json.Unmarshal(data, v)] for a target type: the target after the call and
    the error. *)
Class Target (T : Type) : Type := json_Unmarshal : string -> T -> T * error.

(** [fmt]'s [%s] of a decoded value held in an [interface{}] (the text of a
    string; a bad-verb text for the other kinds). *)
Class FmtString `{GoLib} : Type := Sprintf_s : jvalue float64 -> string.

(** ** path/filepath: [Clean]

    The lexical cleaning of a slash-separated path (the package runs on a
    platform whose separator is the slash): empty and [.] elements go, an
    inner [..] takes the element before it away, a [..] at the root of a
    rooted path goes, leading [..] of a relative path stay; the empty result
    is [.]. *)
Fixpoint split_slash (s : string) : list string :=
  match s with
  | EmptyString => [""]
  | String c s' =>
      if Ascii.eqb c "/" then "" :: split_slash s'
      else match split_slash s' with
           | seg :: rest => String c seg :: rest
           | [] => [String c ""]
           end
  end.

Fixpoint join_slash (l : list string) : string :=
  match l with
  | [] => ""
  | [x] => x
  | x :: rest => x ++ "/" ++ join_slash rest
  end.

Definition is_rooted (path : string) : bool :=
  match path with
  | String c _ => Ascii.eqb c "/"
  | EmptyString => false
  end.

(** One path element against the elements written so far (last one first). *)
Definition clean_step (rooted : bool) (out : list string) (elem : string) : list string :=
  if String.eqb elem "" || String.eqb elem "." then out
  else if String.eqb elem ".." then
    match out with
    | top :: rest => if String.eqb top ".." then elem :: out else rest
    | [] => if rooted then [] else [elem]
    end
  else elem :: out.

Definition clean_elems (path : string) : list string :=
  rev (fold_left (clean_step (is_rooted path)) (split_slash path) []).

Definition filepath_Clean (path : string) : string :=
  if is_rooted path then "/" ++ join_slash (clean_elems path)
  else match clean_elems path with
       | [] => "."
       | out => join_slash out
       end.

(** ** The Result *)

(** [d.object] storing the members of a JSON object into a Go map: a later
    member with the same key overwrites an earlier one. *)
Definition store_members {V : Type} (members : list (string * V)) (m : gmap string V)
  : gmap string V :=
  fold_left (fun acc kv => <[kv.1 := kv.2]> acc) members m.

Section Result.
Context `{GoLib}.

(** [json.Unmarshal(data, &m)] for [m : map[string]interface{}]; [None] is
    the nil map. An object is stored into the map (made first when nil), null
    sets the map to nil, anything else leaves it as it was. *)
Definition Unmarshal_map (data : string) (m : option (gmap string (jvalue float64)))
  : option (gmap string (jvalue float64)) * error :=
  match json_decode data with
  | Invalid e => (m, Some e)
  | Decoded (JObj members) conv => (Some (store_members members (default ∅ m)), conv)
  | Decoded JNull conv => (None, conv)
  | Decoded v _ =>
      (m, Some ("json: cannot unmarshal " ++ kind_name v
                ++ " into Go value of type map[string]interface {}"))
  end.

Record resultImpl : Type := {
  err : error;
  resp : option resty_Response;
  values : option (gmap string (jvalue float64))
}.

Definition set_values (vs : option (gmap string (jvalue float64))) (result : resultImpl)
  : resultImpl :=
  {| err := err result; resp := resp result; values := vs |}.

Definition newResult (e : error) (r : option resty_Response) : resultImpl :=
  {| err := e; resp := r; values := None |}.

Definition Response (result : resultImpl) : option resty_Response := resp result.

Definition extractValues (result : resultImpl) : outcome resultImpl :=
  match values result with
  | Some _ => mret result
  | None =>
      match resp result with
      | None => mret result
      | Some _ =>
          body ← Body (resp result);
          let '(vs, _) := Unmarshal_map body (Some ∅) in
          mret (set_values vs result)
      end
  end.

Definition OK (result : resultImpl) : outcome bool :=
  match err result with
  | Some _ => mret false
  | None => code ← StatusCode (resp result); mret (code =? StatusOK)
  end.

Definition Fail (result : resultImpl) : outcome bool :=
  ok ← OK result; mret (negb ok).

Definition Error (result : resultImpl) : outcome error :=
  ok ← OK result;
  if ok : bool then mret None
  else match err result with
       | Some e => mret (Some e)
       | None =>
           match resp result with
           | Some _ =>
               st ← Status (resp result);
               body ← Body (resp result);
               mret (Some ("status code(" ++ st ++ ") " ++ body))
           | None => mret None
           end
       end.

(** The lookup [result.values[key]]; a nil map has no key. *)
Definition lookup_values (key : string) (result : resultImpl) : option (jvalue float64) :=
  values result ≫= (fun m => m !! key).

(** The part of [Value] after the extraction. *)
Definition Value_lookup {T : Type} `{Target T} (key : string) (v : T) (result : resultImpl)
  : outcome (error * T) :=
  match lookup_values key result with
  | None =>
      body ← Body (resp result);
      mret (Some ("unknown return value " ++ key ++ nl ++ body), v)
  | Some data =>
      match json_Marshal_value data with
      | Err e =>
          body ← Body (resp result);
          mret (Some ("unmarshal result(" ++ key ++ ") err " ++ e ++ nl ++ body), v)
      | Ok buff =>
          match json_Unmarshal buff v with
          | (v', Some e) =>
              mret (Some ("unmarshal result(" ++ key ++ ") err " ++ e ++ nl ++ buff), v')
          | (v', None) => mret (None, v')
          end
      end
  end.

(** [Value]: the error, the target after the call and the Result after the
    call (its cache may have been filled). *)
Definition Value {T : Type} `{Target T} (key : string) (v : T) (result : resultImpl)
  : outcome (error * T * resultImpl) :=
  result ← extractValues result;
  '(e, v') ← Value_lookup key v result;
  mret (e, v', result).

Definition Values (result : resultImpl) : option (gmap string (jvalue float64)) :=
  values result.

End Result.

(** ** Options and the client *)

(** [type Option func(request *http.Request)]: a Go function on a request
    pointer. [on_request] is the mutation of the request a pointer leads to,
    as a function from the request before the call to the request after it
    (an Option applied to a request is this function); [on_nil] is the call
    on the nil pointer, which returns or panics. *)
Record Option : Type := {
  on_request :> http_Request -> http_Request;
  on_nil : outcome unit
}.

(** A value of the [Auth] interface: [Handle(request *http.Request)] is a
    function on a request pointer as well. *)
Record Auth : Type := {
  Handle : Option
}.

Definition WithAuth (a : Auth) : Option :=
  {| on_request := fun request => Handle a request;
     on_nil := on_nil (Handle a) |}.

(** [request.Header.Add(...)] reads the [Header] field through the pointer:
    on nil it panics. *)
Definition WithJWToken (token : string) : Option :=
  {| on_request := fun request =>
       {| Header := Header_Add "Authorization" ("Bearer " ++ token) (Header request) |};
     on_nil := Panic |}.

(** The options on a request that exists, one after the other. *)
Definition apply_options (options : list Option) (raw : http_Request) : http_Request :=
  fold_left (fun request (option : Option) => option request) options raw.

(** The options called on the nil pointer, one after the other: the first
    that panics ends the loop. *)
Fixpoint apply_options_nil (options : list Option) : outcome unit :=
  match options with
  | [] => mret tt
  | option :: rest => _ ← on_nil option; apply_options_nil rest
  end.

(** [for _, option := range options { option(r.RawRequest) }] on the pointer
    [r.RawRequest], which the loop does not change: the result is the request
    it leads to after the loop. *)
Definition call_options (options : list Option) (raw : option http_Request)
  : outcome (option http_Request) :=
  match raw with
  | None => _ ← apply_options_nil options; mret None
  | Some request => mret (Some (apply_options options request))
  end.
Arguments call_options : simpl never.

(** The state of the embedded [sync.RWMutex]. *)
Record sync_RWMutex : Type := {
  writer : bool;
  readers : nat
}.

Record clientImpl : Type := {
  RWMutex : sync_RWMutex;
  url : string;
  auth : option Auth
}.

Definition New (u : string) : clientImpl :=
  {| RWMutex := {| writer := false; readers := 0 |}; url := u; auth := None |}.

(** A resty request: the body set by [SetBody], the query parameters set by
    [SetQueryParams], and the pointer to the raw request, which the options
    are called on. *)
Record resty_Request (P : Type) : Type := {
  req_Body : option P;
  QueryParam : gmap string string;
  RawRequest : option http_Request
}.
Arguments req_Body {P} r.
Arguments QueryParam {P} r.
Arguments RawRequest {P} r.

(** What is handed to the transport: the verb, the URL and the request. *)
Record Sent (P : Type) : Type := {
  sent_Method : string;
  sent_URL : string;
  sent_Request : resty_Request P
}.
Arguments sent_Method {P} s.
Arguments sent_URL {P} s.
Arguments sent_Request {P} s.

(** The transport is resty from [r.Post(url)], [r.Get(url)] and
    [r.Delete(url)] on: its answer to a request handed to it, given the
    requests handed to it before. *)
Class Transport (P : Type) : Type := {
  RoundTrip : list (Sent P) -> Sent P -> option resty_Response * error
}.

Section Client.
Context `{GoLib} {P : Type} `{Payload P} `{Transport P}.

(** [resty.R()]: a fresh request has no raw request yet (resty builds it
    when the request executes), so [RawRequest] is nil. *)
Definition R : resty_Request P :=
  {| req_Body := None; QueryParam := ∅; RawRequest := None |}.

Definition SetBody (body : P) (r : resty_Request P) : resty_Request P :=
  {| req_Body := Some body; QueryParam := QueryParam r; RawRequest := RawRequest r |}.

Definition SetQueryParams (params : gmap string string) (r : resty_Request P)
  : resty_Request P :=
  {| req_Body := req_Body r; QueryParam := params ∪ QueryParam r;
     RawRequest := RawRequest r |}.

Definition set_RawRequest (raw : option http_Request) (r : resty_Request P)
  : resty_Request P :=
  {| req_Body := req_Body r; QueryParam := QueryParam r; RawRequest := raw |}.

(** [r.Post(url)], [r.Get(url)], [r.Delete(url)]: the request is handed to
    resty, which is recorded in the list of requests sent. *)
Definition Execute (method : string) (r : resty_Request P) (u : string)
    (net : list (Sent P)) : (option resty_Response * error) * list (Sent P) :=
  let s := {| sent_Method := method; sent_URL := u; sent_Request := r |} in
  (RoundTrip net s, (net ++ [s])%list).

Definition checkURL (s : string) : string * error :=
  match url_Parse s with
  | Err e => ("", Some e)
  | Ok u =>
      let u := set_Path (filepath_Clean (Path u)) u in
      (URL_String u, None)
  end.

(** [for k, v := range params { r[k] = fmt.Sprintf("%v", v) }] over the
    entries in the order [entries] lists them. *)
Definition range_render (entries : list (string * jvalue float64)) (r : gmap string string)
  : gmap string string :=
  fold_left (fun acc kv => <[kv.1 := Sprintf_v kv.2]> acc) entries r.

Definition requestToMap (request : P) : option (gmap string string) * error :=
  match json_Marshal request with
  | Err e => (None, Some e)
  | Ok buff =>
      match Unmarshal_map buff None with
      | (_, Some e) => (None, Some e)
      | (params, None) =>
          (Some (range_render (map_to_list (default ∅ params)) ∅), None)
      end
  end.

(** The three verbs. A call takes the requests handed to the transport so
    far and returns the Result with the requests handed to it after the
    call, or panics in the loop over the options. *)
Definition POST (c : clientImpl) (path : string) (request : P) (options : list Option)
    (net : list (Sent P)) : outcome (resultImpl * list (Sent P)) :=
  let r := SetBody request R in
  raw ← call_options options (RawRequest r);
  let r := set_RawRequest raw r in
  match checkURL (url c ++ path) with
  | (_, Some e) => mret (newResult (Some e) None, net)
  | (u, None) =>
      let '((rsp, e), net') := Execute "POST" r u net in
      mret (newResult e rsp, net')
  end.

Definition GET (c : clientImpl) (path : string) (request : P) (options : list Option)
    (net : list (Sent P)) : outcome (resultImpl * list (Sent P)) :=
  match requestToMap request with
  | (_, Some e) => mret (newResult (Some e) None, net)
  | (params, None) =>
      let r := SetQueryParams (default ∅ params) R in
      raw ← call_options options (RawRequest r);
      let r := set_RawRequest raw r in
      match checkURL (url c ++ path) with
      | (_, Some e) => mret (newResult (Some e) None, net)
      | (u, None) =>
          let '((rsp, e), net') := Execute "GET" r u net in
          mret (newResult e rsp, net')
      end
  end.

Definition DELETE (c : clientImpl) (path : string) (request : P) (options : list Option)
    (net : list (Sent P)) : outcome (resultImpl * list (Sent P)) :=
  match requestToMap request with
  | (_, Some e) => mret (newResult (Some e) None, net)
  | (params, None) =>
      let r := SetQueryParams (default ∅ params) R in
      raw ← call_options options (RawRequest r);
      let r := set_RawRequest raw r in
      match checkURL (url c ++ path) with
      | (_, Some e) => mret (newResult (Some e) None, net)
      | (u, None) =>
          let '((rsp, e), net') := Execute "DELETE" r u net in
          mret (newResult e rsp, net')
      end
  end.

(** The [Client] interface: its three verbs, each with the method it sends. *)
Definition Client_verbs
  : list (string * (clientImpl -> string -> P -> list Option -> list (Sent P)
                    -> outcome (resultImpl * list (Sent P)))) :=
  [("POST", POST); ("GET", GET); ("DELETE", DELETE)].

(** The URLs of the requests a call has handed to the transport. *)
Definition sent_URLs (out : outcome (resultImpl * list (Sent P))) : outcome (list string) :=
  x ← out; mret (map sent_URL x.2).

End Client.

(** ** The variant of [client.go]

    It shares the types, the options, [newResult], [OK], [Fail], [Error] and
    [Values] with the variant above, and differs in what follows: [Value] does
    not extract (and nothing else calls [extractValues]), the verbs format
    the URL with a slash between base and path and hand it to the transport
    as it is, and [GET] and [DELETE] decode the payload's JSON straight into a
    [map[string]string]. It also has [handleResult], which nothing calls. *)
Module ClientGo.
Section ClientGo.
Context `{GoLib} {P : Type} `{Payload P} `{Transport P}.

Definition extractValues (result : resultImpl) : outcome resultImpl :=
  match values result with
  | Some _ => mret result
  | None =>
      body ← Body (resp result);
      let '(vs, _) := Unmarshal_map body (Some ∅) in
      mret (set_values vs result)
  end.

Definition Value {T : Type} `{Target T} (key : string) (v : T) (result : resultImpl)
  : outcome (error * T) :=
  Value_lookup key v result.

(** The decoding of one member's value into a [string] element: a string is
    stored, null leaves the zero value, anything else is a type error. *)
Definition string_elem (v : jvalue float64) : string * error :=
  match v with
  | JStr s => (s, None)
  | JNull => ("", None)
  | v => ("", Some ("json: cannot unmarshal " ++ kind_name v
                    ++ " into Go value of type string"))
  end.

(** The first type error among the members, in document order. *)
Fixpoint first_elem_error (members : list (string * jvalue float64)) : error :=
  match members with
  | [] => None
  | (_, v) :: rest =>
      match snd (string_elem v) with
      | Some e => Some e
      | None => first_elem_error rest
      end
  end.

(** [json.Unmarshal(data, &m)] for [m : map[string]string]. *)
Definition Unmarshal_string_map (data : string) (m : option (gmap string string))
  : option (gmap string string) * error :=
  match json_decode data with
  | Invalid e => (m, Some e)
  | Decoded (JObj members) _ =>
      (Some (store_members (map (fun kv => (kv.1, fst (string_elem kv.2))) members)
                           (default ∅ m)),
       first_elem_error members)
  | Decoded JNull _ => (None, None)
  | Decoded v _ =>
      (m, Some ("json: cannot unmarshal " ++ kind_name v
                ++ " into Go value of type map[string]string"))
  end.

Definition POST (c : clientImpl) (path : string) (request : P) (options : list Option)
    (net : list (Sent P)) : outcome (resultImpl * list (Sent P)) :=
  let r := SetBody request R in
  raw ← call_options options (RawRequest r);
  let r := set_RawRequest raw r in
  let '((rsp, e), net') := Execute "POST" r (url c ++ "/" ++ path) net in
  mret (newResult e rsp, net').

Definition GET (c : clientImpl) (path : string) (request : P) (options : list Option)
    (net : list (Sent P)) : outcome (resultImpl * list (Sent P)) :=
  match json_Marshal request with
  | Err e => mret (newResult (Some e) None, net)
  | Ok buff =>
      match Unmarshal_string_map buff None with
      | (_, Some e) => mret (newResult (Some e) None, net)
      | (params, None) =>
          let r := SetQueryParams (default ∅ params) R in
          raw ← call_options options (RawRequest r);
          let r := set_RawRequest raw r in
          let '((rsp, e), net') := Execute "GET" r (url c ++ "/" ++ path) net in
          mret (newResult e rsp, net')
      end
  end.

Definition DELETE (c : clientImpl) (path : string) (request : P) (options : list Option)
    (net : list (Sent P)) : outcome (resultImpl * list (Sent P)) :=
  match json_Marshal request with
  | Err e => mret (newResult (Some e) None, net)
  | Ok buff =>
      match Unmarshal_string_map buff None with
      | (_, Some e) => mret (newResult (Some e) None, net)
      | (params, None) =>
          let r := SetQueryParams (default ∅ params) R in
          raw ← call_options options (RawRequest r);
          let r := set_RawRequest raw r in
          let '((rsp, e), net') := Execute "DELETE" r (url c ++ "/" ++ path) net in
          mret (newResult e rsp, net')
      end
  end.

(** [handleResult]: the body is decoded into a fresh map, a status other
    than 200 is reported with the [code] and [msg] members, and the member
    [name] is marshalled and unmarshalled into [obj]. A key the map lacks
    reads as the nil interface, which is also what a JSON null decodes to.
    The result is the error and the target after the call. *)
Definition handleResult {T : Type} `{Target T} `{FmtString}
    (rsp : option resty_Response) (name : string) (obj : T) : outcome (error * T) :=
  body ← Body rsp;
  match Unmarshal_map body (Some ∅) with
  | (_, Some e) => mret (Some ("unmarshal result err " ++ e ++ nl ++ body), obj)
  | (result, None) =>
      code ← StatusCode rsp;
      if negb (code =? StatusOK) then
        st ← Status rsp;
        mret (Some ("http code(" ++ st ++ ") code("
                    ++ Sprintf_v (default JNull (result ≫= (fun m => m !! "code")))
                    ++ ") errmsg "
                    ++ Sprintf_s (default JNull (result ≫= (fun m => m !! "msg")))),
              obj)
      else
        match result ≫= (fun m => m !! name) with
        | None =>
            mret (Some ("unknown return value " ++ name ++ nl ++ body), obj)
        | Some data =>
            match json_Marshal_value data with
            | Err e =>
                mret (Some ("unmarshal result(" ++ name ++ ") err " ++ e ++ nl ++ body),
                      obj)
            | Ok buff =>
                match json_Unmarshal buff obj with
                | (obj', Some e) =>
                    mret (Some ("unmarshal result(" ++ name ++ ") err " ++ e
                                ++ nl ++ buff), obj')
                | (obj', None) => mret (None, obj')
                end
            end
        end
  end.

End ClientGo.
End ClientGo.

(** ** Executable codecs for the examples

    Small instances of the library classes, exact on the fragment the
    examples use: JSON documents whose strings need no escape and whose
    numbers are integer literals of at most six digits (so that [json.Marshal]
    and [%v] both print them in plain decimal), and URLs of the form
    [scheme://host/path] over unreserved characters. Outside the fragment the
    codecs answer with an error of their own; no statement below depends on
    them there. *)
Module Demo.

Definition quote : ascii := "034"%char.

(** Writes a document with apostrophes for the double quotes. *)
Fixpoint js (s : string) : string :=
  match s with
  | EmptyString => EmptyString
  | String c s' => String (if Ascii.eqb c "'"%char then quote else c) (js s')
  end.

Definition is_ws (c : ascii) : bool :=
  Ascii.eqb c " "%char || Ascii.eqb c "009"%char
  || Ascii.eqb c "010"%char || Ascii.eqb c "013"%char.

Definition is_digit (c : ascii) : bool :=
  (48 <=? nat_of_ascii c)%nat && (nat_of_ascii c <=? 57)%nat.

Fixpoint skip_ws (s : string) : string :=
  match s with
  | String c s' => if is_ws c then skip_ws s' else s
  | EmptyString => s
  end.

Fixpoint take_digits (s : string) : string * string :=
  match s with
  | String c s' =>
      if is_digit c then let '(ds, rest) := take_digits s' in (String c ds, rest)
      else ("", s)
  | EmptyString => ("", s)
  end.

Fixpoint digits_value (acc : Z) (ds : string) : Z :=
  match ds with
  | String c ds' => digits_value (10 * acc + (Z.of_nat (nat_of_ascii c) - 48)) ds'
  | EmptyString => acc
  end.

(** The characters of a string up to its closing quote; a backslash or a
    control character is outside the fragment. *)
Fixpoint take_string (s : string) : option (string * string) :=
  match s with
  | EmptyString => None
  | String c s' =>
      if Ascii.eqb c quote then Some ("", s')
      else if Ascii.eqb c "\"%char || (nat_of_ascii c <? 32)%nat then None
      else match take_string s' with
           | Some (str, rest) => Some (String c str, rest)
           | None => None
           end
  end.

Fixpoint strip_prefix (p s : string) : option string :=
  match p, s with
  | EmptyString, _ => Some s
  | String a p', String b s' => if Ascii.eqb a b then strip_prefix p' s' else None
  | _, _ => None
  end.

(** An integer literal: an optional minus, then [0] or up to six digits with
    no leading zero; no fraction, no exponent. *)
Definition take_number (s : string) : option (Z * string) :=
  let '(neg, s1) := match strip_prefix "-" s with
                    | Some s1 => (true, s1)
                    | None => (false, s) end in
  let '(ds, rest) := take_digits s1 in
  let n := digits_value 0 ds in
  let next_ok := match rest with
                 | String c _ =>
                     negb (Ascii.eqb c "."%char || Ascii.eqb c "e"%char
                           || Ascii.eqb c "E"%char)
                 | EmptyString => true
                 end in
  let shape_ok := match ds with
                  | EmptyString => false
                  | String c EmptyString => true
                  | String c _ => negb (Ascii.eqb c "0"%char)
                  end in
  if shape_ok && next_ok && (String.length ds <=? 6)%nat && negb (neg && (n =? 0))
  then Some (if neg then - n else n, rest)
  else None.

Fixpoint parse_value (fuel : nat) (s : string) {struct fuel}
  : option (jvalue Z * string) :=
  match fuel with
  | O => None
  | S fuel =>
      match skip_ws s with
      | EmptyString => None
      | String c rest =>
          if Ascii.eqb c "{"%char then
            match skip_ws rest with
            | String c' rest' =>
                if Ascii.eqb c' "}"%char then Some (JObj [], rest')
                else match parse_members fuel rest with
                     | Some (ms, rest'') => Some (JObj ms, rest'')
                     | None => None
                     end
            | EmptyString => None
            end
          else if Ascii.eqb c "["%char then
            match skip_ws rest with
            | String c' rest' =>
                if Ascii.eqb c' "]"%char then Some (JArr [], rest')
                else match parse_elems fuel rest with
                     | Some (l, rest'') => Some (JArr l, rest'')
                     | None => None
                     end
            | EmptyString => None
            end
          else if Ascii.eqb c quote then
            match take_string rest with
            | Some (str, rest') => Some (JStr str, rest')
            | None => None
            end
          else
            match strip_prefix "true" (String c rest),
                  strip_prefix "false" (String c rest),
                  strip_prefix "null" (String c rest) with
            | Some rest', _, _ => Some (JBool true, rest')
            | _, Some rest', _ => Some (JBool false, rest')
            | _, _, Some rest' => Some (JNull, rest')
            | None, None, None =>
                match take_number (String c rest) with
                | Some (n, rest') => Some (JNum n, rest')
                | None => None
                end
            end
      end
  end
with parse_members (fuel : nat) (s : string) {struct fuel}
  : option (list (string * jvalue Z) * string) :=
  match fuel with
  | O => None
  | S fuel =>
      match skip_ws s with
      | String c rest =>
          if Ascii.eqb c quote then
            match take_string rest with
            | Some (k, rest1) =>
                match skip_ws rest1 with
                | String c1 rest2 =>
                    if Ascii.eqb c1 ":"%char then
                      match parse_value fuel rest2 with
                      | Some (v, rest3) =>
                          match skip_ws rest3 with
                          | String c3 rest4 =>
                              if Ascii.eqb c3 "}"%char then Some ([(k, v)], rest4)
                              else if Ascii.eqb c3 ","%char then
                                match parse_members fuel rest4 with
                                | Some (ms, rest5) => Some ((k, v) :: ms, rest5)
                                | None => None
                                end
                              else None
                          | EmptyString => None
                          end
                      | None => None
                      end
                    else None
                | EmptyString => None
                end
            | None => None
            end
          else None
      | EmptyString => None
      end
  end
with parse_elems (fuel : nat) (s : string) {struct fuel}
  : option (list (jvalue Z) * string) :=
  match fuel with
  | O => None
  | S fuel =>
      match parse_value fuel s with
      | Some (v, rest) =>
          match skip_ws rest with
          | String c rest' =>
              if Ascii.eqb c "]"%char then Some ([v], rest')
              else if Ascii.eqb c ","%char then
                match parse_elems fuel rest' with
                | Some (l, rest'') => Some (v :: l, rest'')
                | None => None
                end
              else None
          | EmptyString => None
          end
      | None => None
      end
  end.

Definition decode (s : string) : decoded Z :=
  match parse_value (S (String.length s)) s with
  | Some (v, rest) =>
      match skip_ws rest with
      | EmptyString => Decoded v None
      | _ => Invalid "invalid character after top-level value"
      end
  | None => Invalid "unexpected end of JSON input"
  end.

(** Members in the order [json.Marshal] and [%v] print a map: by key, the
    last member of a key standing for it. *)
Fixpoint put_member (k : string) (v : string) (l : list (string * string))
  : list (string * string) :=
  match l with
  | [] => [(k, v)]
  | (k', v') :: l' =>
      match String.compare k k' with
      | Lt => (k, v) :: l
      | Eq => (k, v) :: l'
      | Gt => (k', v') :: put_member k v l'
      end
  end.

Definition sort_members (l : list (string * string)) : list (string * string) :=
  fold_left (fun acc kv => put_member kv.1 kv.2 acc) l [].

Fixpoint join (sep : string) (l : list string) : string :=
  match l with
  | [] => ""
  | [x] => x
  | x :: rest => x ++ sep ++ join sep rest
  end.

Definition quoted (s : string) : string := String quote (s ++ String quote "").

Fixpoint marshal (v : jvalue Z) : string :=
  match v with
  | JNull => "null"
  | JBool b => if b then "true" else "false"
  | JNum n => pretty n
  | JStr s => quoted s
  | JArr l => "[" ++ join "," (map marshal l) ++ "]"
  | JObj ms =>
      let rendered := map (fun kv => match kv with (k, x) => (k, marshal x) end) ms in
      "{" ++ join "," (map (fun kv => quoted kv.1 ++ ":" ++ kv.2) (sort_members rendered))
          ++ "}"
  end.

Fixpoint sprintf_v (v : jvalue Z) : string :=
  match v with
  | JNull => "<nil>"
  | JBool b => if b then "true" else "false"
  | JNum n => pretty n
  | JStr s => s
  | JArr l => "[" ++ join " " (map sprintf_v l) ++ "]"
  | JObj ms =>
      let rendered := map (fun kv => match kv with (k, x) => (k, sprintf_v x) end) ms in
      "map[" ++ join " " (map (fun kv => kv.1 ++ ":" ++ kv.2) (sort_members rendered)) ++ "]"
  end.

(** *** URLs *)

Definition is_lower (c : ascii) : bool :=
  (97 <=? nat_of_ascii c)%nat && (nat_of_ascii c <=? 122)%nat.
Definition is_upper (c : ascii) : bool :=
  (65 <=? nat_of_ascii c)%nat && (nat_of_ascii c <=? 90)%nat.
Definition is_ctl (c : ascii) : bool :=
  (nat_of_ascii c <? 32)%nat || (nat_of_ascii c =? 127)%nat.
Definition to_lower (c : ascii) : ascii :=
  if is_upper c then ascii_of_nat (nat_of_ascii c + 32) else c.

Fixpoint string_all (f : ascii -> bool) (s : string) : bool :=
  match s with
  | EmptyString => true
  | String c s' => f c && string_all f s'
  end.

Fixpoint string_map (f : ascii -> ascii) (s : string) : string :=
  match s with
  | EmptyString => EmptyString
  | String c s' => String (f c) (string_map f s')
  end.

(** The text before the first [sep] and, when there is one, the text after. *)
Fixpoint cut (sep : ascii) (s : string) : string * option string :=
  match s with
  | EmptyString => ("", None)
  | String c s' =>
      if Ascii.eqb c sep then ("", Some s')
      else let '(before, after) := cut sep s' in (String c before, after)
  end.

(** [getScheme]: [None] is the error (a colon first), [Some None] a text with
    no scheme, [Some (Some (scheme, rest))] a scheme and what follows its
    colon. *)
Fixpoint getScheme (first : bool) (s : string) : option (option (string * string)) :=
  match s with
  | EmptyString => Some None
  | String c s' =>
      let continue :=
        match getScheme false s' with
        | Some (Some (scheme, rest)) => Some (Some (String c scheme, rest))
        | r => r
        end in
      if is_lower c || is_upper c then continue
      else if is_digit c || Ascii.eqb c "+"%char || Ascii.eqb c "-"%char
              || Ascii.eqb c "."%char
      then (if first then Some None else continue)
      else if Ascii.eqb c ":"%char
      then (if first then None else Some (Some ("", s')))
      else Some None
  end.

(** The characters the fragment allows in a host, and in a path. *)
Definition host_char (c : ascii) : bool :=
  is_lower c || is_upper c || is_digit c || Ascii.eqb c "."%char || Ascii.eqb c "-"%char.
Definition path_char (c : ascii) : bool :=
  host_char c || Ascii.eqb c "_"%char || Ascii.eqb c "~"%char || Ascii.eqb c "/"%char.

Definition parse_error (raw msg : string) : string :=
  "parse " ++ quoted raw ++ ": " ++ msg.

Definition outside : string := "outside the fragment of the example codec".

Definition parse_url (raw : string) : result URL :=
  if negb (string_all (fun c => negb (is_ctl c)) raw)
  then Err (parse_error raw "net/url: invalid control character in URL")
  else
    match getScheme true raw with
    | None => Err (parse_error raw "missing protocol scheme")
    | Some None =>
        if string_all path_char raw && negb (String.prefix "//" raw)
        then Ok {| Scheme := ""; Opaque := ""; Host := ""; Path := raw; RawPath := "";
                   RawQuery := ""; Fragment := "" |}
        else Err outside
    | Some (Some (scheme, rest)) =>
        match strip_prefix "//" rest with
        | Some rest' =>
            let '(host, path) :=
              match cut "/"%char rest' with
              | (h, Some p) => (h, String "/"%char p)
              | (h, None) => (h, "")
              end in
            if string_all host_char host && negb (String.eqb host "")
               && string_all path_char path
            then Ok {| Scheme := string_map to_lower scheme; Opaque := ""; Host := host;
                       Path := path; RawPath := ""; RawQuery := ""; Fragment := "" |}
            else Err outside
        | None => Err outside
        end
    end.

Definition url_string (u : URL) : string :=
  (if String.eqb (Scheme u) "" then "" else Scheme u ++ ":")
  ++ (if String.eqb (Opaque u) "" then
        (if String.eqb (Scheme u) "" && String.eqb (Host u) "" then ""
         else (if String.eqb (Host u) "" && String.eqb (Path u) "" then "" else "//")
              ++ Host u)
        ++ (if negb (String.eqb (Path u) "") && negb (is_rooted (Path u))
               && negb (String.eqb (Host u) "") then "/" else "")
        ++ Path u
      else Opaque u)
  ++ (if String.eqb (RawQuery u) "" then "" else "?" ++ RawQuery u)
  ++ (if String.eqb (Fragment u) "" then "" else "#" ++ Fragment u).

Definition lib : GoLib :=
  {| float64 := Z;
     json_decode := decode;
     json_Marshal_value := fun v => Ok (marshal v);
     Sprintf_v := sprintf_v;
     url_Parse := parse_url;
     URL_String := url_string |}.

(** *** A target, a payload and a transport *)

(** [struct { ID int `json:"id"` }] *)
Record item : Type := { id : Z }.

(** A member of the document against the target: a key that matches [id]
    (letter case apart) sets the field from a number, leaves it on null, and
    is a type error otherwise. *)
Definition item_member (acc : item * error) (kv : string * jvalue Z) : item * error :=
  let '(v, e) := acc in
  if String.eqb (string_map to_lower kv.1) "id" then
    match kv.2 with
    | JNum n => ({| id := n |}, e)
    | JNull => (v, e)
    | x =>
        (v, match e with
            | Some _ => e
            | None => Some ("json: cannot unmarshal " ++ kind_name x
                            ++ " into Go struct field item.id of type int")
            end)
    end
  else (v, e).

Definition item_target : Target item :=
  fun data v =>
    match decode data with
    | Invalid e => (v, Some e)
    | Decoded (JObj ms) _ => fold_left item_member ms (v, None)
    | Decoded JNull _ => (v, None)
    | Decoded x _ =>
        (v, Some ("json: cannot unmarshal " ++ kind_name x
                  ++ " into Go value of type restclient.item"))
    end.

(** [struct { Name string `json:"name"`; Page int `json:"page"` }], for names
    that need no escape. *)
Record listing : Type := { name : string; page : Z }.

Definition listing_payload : Payload listing :=
  fun l => Ok ("{" ++ quoted "name" ++ ":" ++ quoted (name l) ++ ","
                   ++ quoted "page" ++ ":" ++ pretty (page l) ++ "}").

(** A payload [json.Marshal] refuses, such as a channel. *)
Definition channel_payload : Payload unit :=
  fun _ => Err "json: unsupported type: chan int".

(** A transport that answers every request with the same response. *)
Definition canned (P : Type) (rsp : resty_Response) : Transport P :=
  {| RoundTrip := fun _ _ => (Some rsp, None) |}.

Fixpoint sprintf_s (v : jvalue Z) : string :=
  match v with
  | JNull => "%!s(<nil>)"
  | JBool b => "%!s(bool=" ++ (if b then "true" else "false") ++ ")"
  | JNum n => "%!s(float64=" ++ pretty n ++ ")"
  | JStr s => s
  | JArr l => "[" ++ join " " (map sprintf_s l) ++ "]"
  | JObj ms =>
      let rendered := map (fun kv => match kv with (k, x) => (k, sprintf_s x) end) ms in
      "map[" ++ join " " (map (fun kv => kv.1 ++ ":" ++ kv.2) (sort_members rendered)) ++ "]"
  end.

Definition fmt_s : FmtString (H := lib) := sprintf_s.

(** [[]int]: the nil slice marshals to null, any other to an array. *)
Definition ints_payload : Payload (option (list Z)) :=
  fun l => match l with
           | None => Ok "null"
           | Some ns => Ok ("[" ++ join "," (map pretty ns) ++ "]")
           end.

Definition ints_network : Transport (option (list Z)) :=
  canned (option (list Z)) {| resp_StatusCode := 200; resp_Status := "200 OK";
                              resp_Body := "{}" |}.

(** A transport that fails to connect: resty answers with a response that
    holds no raw response (status 0, empty body) and the error. *)
Definition refused_error : string :=
  "Post " ++ quoted "http://127.0.0.1/users"
  ++ ": dial tcp 127.0.0.1:80: connect: connection refused".

Definition refused : Transport listing :=
  {| RoundTrip := fun _ _ =>
       (Some {| resp_StatusCode := 0; resp_Status := ""; resp_Body := "" |},
        Some refused_error) |}.

(** *** Responses, Results and clients of the examples *)

Definition ok_response : resty_Response :=
  {| resp_StatusCode := 200; resp_Status := "200 OK";
     resp_Body := js "{'result':{'id':42}}" |}.

Definition bad_response : resty_Response :=
  {| resp_StatusCode := 400; resp_Status := "400 Bad Request";
     resp_Body := js "{'code':1,'msg':'bad','data':{'x':1}}" |}.

Definition created_response : resty_Response :=
  {| resp_StatusCode := 201; resp_Status := "201 Created"; resp_Body := "{}" |}.

Definition null_response : resty_Response :=
  {| resp_StatusCode := 200; resp_Status := "200 OK"; resp_Body := "null" |}.

Definition array_response : resty_Response :=
  {| resp_StatusCode := 200; resp_Status := "200 OK"; resp_Body := "[1,2]" |}.

Definition bob : listing := {| name := "bob"; page := 2 |}.

Definition ok_result : resultImpl (H := lib) := newResult None (Some ok_response).

(** [ok_result] after the extraction. *)
Definition ok_result_extracted : resultImpl (H := lib) :=
  set_values (Some {[ "result" := JObj [("id", JNum 42)] ]}) ok_result.

(** The network of the examples. *)
Definition network : Transport listing := canned listing ok_response.
Definition channel_network : Transport unit := canned unit ok_response.

(** An auth whose [Handle] returns at once on a nil request and adds its
    token otherwise. *)
Definition careful : Auth :=
  {| Handle := {| on_request := WithJWToken "secret"; on_nil := mret tt |} |}.

(** A client whose lock is held and whose auth field is set. *)
Definition busy_client (u : string) : clientImpl :=
  {| RWMutex := {| writer := true; readers := 3 |}; url := u;
     auth := Some {| Handle := WithJWToken "secret" |} |}.

End Demo.

(** * Properties *)

(** [sub] occurs in [s]. *)
Fixpoint contains (sub s : string) : bool :=
  String.prefix sub s
  || match s with
     | String _ s' => contains sub s'
     | EmptyString => false
     end.

(** A path element Clean keeps in a rooted path: not empty, not a dot
    element, and free of slashes. *)
Fixpoint no_slash (s : string) : bool :=
  match s with
  | EmptyString => true
  | String c s' => negb (Ascii.eqb c "/") && no_slash s'
  end.

Fixpoint ends_with_slash (s : string) : bool :=
  match s with
  | EmptyString => false
  | String c EmptyString => Ascii.eqb c "/"
  | String _ s' => ends_with_slash s'
  end.

(** A path element Clean writes, in a rooted path or not: not empty and free
    of slashes. *)
Definition solid_elem (e : string) : bool :=
  negb (String.eqb e "") && no_slash e.

Definition proper_elem (e : string) : bool :=
  negb (String.eqb e "") && negb (String.eqb e ".") && negb (String.eqb e "..")
  && no_slash e.

Ltac outcome_unfold :=
  unfold mbind, mret, outcome_bind, outcome_ret, deref, StatusCode, Status, Body.
Ltac outcome_simpl :=
  repeat first [progress simpl | progress outcome_unfold].

Section ResultProperties.
Context `{GoLib}.

(** *** Success and failure *)

Lemma OK_error (r : resultImpl) (e : string) :
  err r = Some e -> OK r = Ret false.
Proof. intros He. unfold OK. rewrite He. reflexivity. Qed.

Lemma OK_response (r : resultImpl) (rp : resty_Response) :
  err r = None -> resp r = Some rp -> OK r = Ret (resp_StatusCode rp =? StatusOK).
Proof. intros He Hr. unfold OK. rewrite He, Hr. reflexivity. Qed.

Lemma OK_no_error_no_response (r : resultImpl) :
  err r = None -> resp r = None -> OK r = Panic.
Proof. intros He Hr. unfold OK. rewrite He, Hr. reflexivity. Qed.

Lemma OK_true_iff (r : resultImpl) :
  OK r = Ret true <->
  err r = None /\ exists rp, resp r = Some rp /\ resp_StatusCode rp = 200.
Proof.
  destruct (err r) as [e|] eqn:He.
  - rewrite (OK_error r e He). split; [discriminate | intros [Hn _]; discriminate].
  - destruct (resp r) as [rp|] eqn:Hr.
    + rewrite (OK_response r rp He Hr). unfold StatusOK. split.
      * intros Hok. injection Hok as Hok. apply Z.eqb_eq in Hok. eauto.
      * intros [_ [rp' [Hrp Hc]]]. injection Hrp as <-. rewrite Hc. reflexivity.
    + rewrite (OK_no_error_no_response r He Hr).
      split; [discriminate | intros [_ [rp [Hrp _]]]; discriminate].
Qed.

Lemma Fail_OK (r : resultImpl) (b : bool) :
  OK r = Ret b <-> Fail r = Ret (negb b).
Proof.
  unfold Fail. destruct (OK r) as [b'|]; outcome_simpl.
  - split; intros Hb; injection Hb as Hb.
    + subst. reflexivity.
    + destruct b, b'; simpl in Hb; congruence.
  - split; discriminate.
Qed.

(** C2. [OK()] is true exactly when the stored error is nil and the response's
    status code is 200; with no error any other status (201 among them) makes
    it false, and so does a stored error; [Fail()] returns the negation of
    what [OK()] returns. *)
Theorem OK_Fail_contract (r : resultImpl) :
  (OK r = Ret true <->
     err r = None /\ exists rp, resp r = Some rp /\ resp_StatusCode rp = 200)
  /\ (forall rp, err r = None -> resp r = Some rp -> resp_StatusCode rp <> 200 ->
        OK r = Ret false /\ Fail r = Ret true)
  /\ (forall e, err r = Some e -> OK r = Ret false /\ Fail r = Ret true)
  /\ (forall b, OK r = Ret b <-> Fail r = Ret (negb b)).
Proof.
  split; [apply OK_true_iff|].
  split; [|split].
  - intros rp He Hr Hc.
    assert (Hok : OK r = Ret false).
    { rewrite (OK_response r rp He Hr). unfold StatusOK.
      apply Z.eqb_neq in Hc. rewrite Hc. reflexivity. }
    split; [exact Hok | apply (Fail_OK r false), Hok].
  - intros e He. pose proof (OK_error r e He) as Hok.
    split; [exact Hok | apply (Fail_OK r false), Hok].
  - apply Fail_OK.
Qed.

(** *** The error of a Result *)

Lemma Error_OK (r : resultImpl) : OK r = Ret true -> Error r = Ret None.
Proof. intros Hok. unfold Error. rewrite Hok. reflexivity. Qed.

Lemma Error_local (r : resultImpl) (e : string) :
  err r = Some e -> Error r = Ret (Some e).
Proof.
  intros He. unfold Error. rewrite (OK_error r e He). outcome_simpl.
  rewrite He. reflexivity.
Qed.

Lemma Error_status (r : resultImpl) (rp : resty_Response) :
  err r = None -> resp r = Some rp -> resp_StatusCode rp <> 200 ->
  Error r = Ret (Some ("status code(" ++ resp_Status rp ++ ") " ++ resp_Body rp)).
Proof.
  intros He Hr Hc. unfold Error. rewrite (OK_response r rp He Hr).
  unfold StatusOK. apply Z.eqb_neq in Hc. rewrite Hc. outcome_simpl.
  rewrite He, Hr. reflexivity.
Qed.

(** The first three cases of [Error()]: nil when [OK()], else the stored
    error, else the status line and the body of the response. *)
Lemma Error_cases (r : resultImpl) :
  (OK r = Ret true -> Error r = Ret None)
  /\ (forall e, err r = Some e -> Error r = Ret (Some e))
  /\ (forall rp, err r = None -> resp r = Some rp -> resp_StatusCode rp <> 200 ->
        Error r = Ret (Some ("status code(" ++ resp_Status rp ++ ") " ++ resp_Body rp))).
Proof.
  split; [apply Error_OK|].
  split; [apply Error_local | apply Error_status].
Qed.

(** C9. With neither a stored error nor a response, [Error()] does not reach
    its last [return nil]: [OK()] has read the status code of the nil
    response before, and the call panics. *)
Theorem Error_no_error_no_response_panics :
  OK (newResult None None) = Panic /\ Error (newResult None None) = Panic.
Proof.
  assert (Hok : OK (newResult None None) = Panic).
  { apply OK_no_error_no_response; reflexivity. }
  split; [exact Hok|].
  unfold Error. rewrite Hok. reflexivity.
Qed.

(** *** Extraction *)

Lemma extractValues_cached (r : resultImpl) m :
  values r = Some m -> extractValues r = Ret r.
Proof. intros Hv. unfold extractValues. rewrite Hv. reflexivity. Qed.

Lemma extractValues_no_response (r : resultImpl) :
  values r = None -> resp r = None -> extractValues r = Ret r.
Proof. intros Hv Hr. unfold extractValues. rewrite Hv, Hr. reflexivity. Qed.

Lemma extractValues_response (r : resultImpl) (rp : resty_Response) :
  values r = None -> resp r = Some rp ->
  extractValues r = Ret (set_values (Unmarshal_map (resp_Body rp) (Some ∅)).1 r).
Proof.
  intros Hv Hr. unfold extractValues. rewrite Hv, Hr. outcome_simpl.
  destruct (Unmarshal_map (resp_Body rp) (Some ∅)). reflexivity.
Qed.

Lemma Unmarshal_map_object (data : string) members conv m :
  json_decode data = Decoded (JObj members) conv ->
  Unmarshal_map data m = (Some (store_members members (default ∅ m)), conv).
Proof. intros Hd. unfold Unmarshal_map. rewrite Hd. reflexivity. Qed.

(** A text that is neither an object nor null leaves the map as it was. *)
Lemma Unmarshal_map_other (data : string) m :
  (forall members conv, json_decode data <> Decoded (JObj members) conv) ->
  (forall conv, json_decode data <> Decoded JNull conv) ->
  (Unmarshal_map data m).1 = m.
Proof.
  intros Hobj Hnull. unfold Unmarshal_map.
  destruct (json_decode data) as [e|v conv] eqn:Hd; [reflexivity|].
  destruct v; try reflexivity.
  - exfalso. apply (Hnull conv). reflexivity.
  - exfalso. apply (Hobj members conv). reflexivity.
Qed.

Lemma Unmarshal_map_null (data : string) conv m :
  json_decode data = Decoded JNull conv -> (Unmarshal_map data m).1 = None.
Proof. intros Hd. unfold Unmarshal_map. rewrite Hd. reflexivity. Qed.

(** *** Value on a Result without response *)

(** C7. On a Result with a nil response [Value] skips the extraction, finds
    no key in the nil map, and then reads the body of the nil response for the
    error text: the call panics, whatever the key and the target. *)
Theorem Value_nil_response_panics {T : Type} `{Target T}
    (e : error) (key : string) (v : T) :
  extractValues (newResult e None) = Ret (newResult e None)
  /\ lookup_values key (newResult e None) = None
  /\ Value key v (newResult e None) = Panic.
Proof.
  assert (Hx : extractValues (newResult e None) = Ret (newResult e None)).
  { apply extractValues_no_response; reflexivity. }
  split; [exact Hx|]. split; [reflexivity|].
  unfold Value. rewrite Hx. reflexivity.
Qed.

(** *** Value on a Result with a response *)

Lemma Value_unfold {T : Type} `{Target T} (r r' : resultImpl) (key : string) (v : T) :
  extractValues r = Ret r' ->
  Value key v r = (x ← Value_lookup key v r'; mret (x.1, x.2, r')).
Proof.
  intros Hx. unfold Value. rewrite Hx. outcome_simpl.
  destruct (Value_lookup key v r') as [[e v']|]; reflexivity.
Qed.

Lemma Value_lookup_absent {T : Type} `{Target T} (r : resultImpl) rp (key : string) (v : T) :
  lookup_values key r = None -> resp r = Some rp ->
  Value_lookup key v r =
  Ret (Some ("unknown return value " ++ key ++ nl ++ resp_Body rp), v).
Proof. intros Hk Hr. unfold Value_lookup. rewrite Hk, Hr. reflexivity. Qed.

Lemma Value_lookup_present {T : Type} `{Target T} (r : resultImpl) (key : string)
    (v v' : T) data buff :
  lookup_values key r = Some data -> json_Marshal_value data = Ok buff ->
  json_Unmarshal buff v = (v', None) ->
  Value_lookup key v r = Ret (None, v').
Proof. intros Hk Hm Hu. unfold Value_lookup. rewrite Hk, Hm, Hu. reflexivity. Qed.

Lemma Value_lookup_mismatch {T : Type} `{Target T} (r : resultImpl) (key : string)
    (v v' : T) data buff e :
  lookup_values key r = Some data -> json_Marshal_value data = Ok buff ->
  json_Unmarshal buff v = (v', Some e) ->
  Value_lookup key v r =
  Ret (Some ("unmarshal result(" ++ key ++ ") err " ++ e ++ nl ++ buff), v').
Proof. intros Hk Hm Hu. unfold Value_lookup. rewrite Hk, Hm, Hu. reflexivity. Qed.

Lemma Value_lookup_returns {T : Type} `{Target T} (r : resultImpl) rp (key : string) (v : T) :
  resp r = Some rp -> exists x, Value_lookup key v r = Ret x.
Proof.
  intros Hr. unfold Value_lookup. rewrite Hr.
  destruct (lookup_values key r) as [data|]; [|eexists; reflexivity].
  destruct (json_Marshal_value data) as [buff|e]; [|eexists; reflexivity].
  destruct (json_Unmarshal buff v) as [v' [e|]]; eexists; reflexivity.
Qed.

(** C1. On a Result whose response body is a JSON object and whose cache is
    still nil, [Value] of a key of the object marshals the member's value and
    unmarshals the text into the target, returning nil when that succeeds;
    [Value] of a key the object lacks returns the unknown-field error. The
    mapping is nil before the call, holds the object's members after it, and
    is not extracted again: a second call gives what the first gave. *)
Theorem Value_contract {T : Type} `{Target T} (r : resultImpl) (rp : resty_Response)
    (members : list (string * jvalue float64)) (conv : error) (key : string) (v : T) :
  resp r = Some rp -> values r = None ->
  json_decode (resp_Body rp) = Decoded (JObj members) conv ->
  let m := store_members members ∅ in
  let r' := set_values (Some m) r in
  (forall data buff v',
      m !! key = Some data -> json_Marshal_value data = Ok buff ->
      json_Unmarshal buff v = (v', None) ->
      Value key v r = Ret (None, v', r'))
  /\ (m !! key = None ->
      Value key v r =
      Ret (Some ("unknown return value " ++ key ++ nl ++ resp_Body rp), v, r'))
  /\ (exists out, Value key v r = Ret out /\ out.2 = r' /\ Value key v r' = Ret out)
  /\ Values r = None /\ Values r' = Some m /\ extractValues r' = Ret r'.
Proof.
  intros Hr Hv Hd m r'.
  assert (Hx : extractValues r = Ret r').
  { rewrite (extractValues_response r rp Hv Hr).
    rewrite (Unmarshal_map_object _ members conv _ Hd). reflexivity. }
  assert (Hx' : extractValues r' = Ret r') by reflexivity.
  assert (Hl : lookup_values key r' = m !! key) by reflexivity.
  assert (Hb : resp r' = Some rp) by exact Hr.
  split; [|split; [|split]].
  - intros data buff v' Hk Hm Hu. rewrite (Value_unfold r r' key v Hx).
    rewrite Hk in Hl. rewrite (Value_lookup_present r' key v v' data buff Hl Hm Hu).
    reflexivity.
  - intros Hk. rewrite (Value_unfold r r' key v Hx).
    rewrite Hk in Hl. rewrite (Value_lookup_absent r' rp key v Hl Hb).
    reflexivity.
  - rewrite (Value_unfold r r' key v Hx), (Value_unfold r' r' key v Hx').
    destruct (Value_lookup_returns r' rp key v Hb) as [x Hxl]. rewrite Hxl.
    eexists. split; [reflexivity|]. split; reflexivity.
  - split; [exact Hv|]. split; reflexivity.
Qed.

(** A value the target cannot take gives the error of the second decoding,
    with the marshalled fragment. *)
Lemma Value_mismatch {T : Type} `{Target T} (r : resultImpl) m (key : string) (v v' : T)
    data buff e :
  values r = Some m -> m !! key = Some data -> json_Marshal_value data = Ok buff ->
  json_Unmarshal buff v = (v', Some e) ->
  Value key v r =
  Ret (Some ("unmarshal result(" ++ key ++ ") err " ++ e ++ nl ++ buff), v', r).
Proof.
  intros Hv Hk Hm Hu.
  rewrite (Value_unfold r r key v (extractValues_cached r m Hv)).
  assert (Hl : lookup_values key r = Some data).
  { unfold lookup_values. rewrite Hv. exact Hk. }
  rewrite (Value_lookup_mismatch r key v v' data buff e Hl Hm Hu). reflexivity.
Qed.

(** *** Values *)

(** C8 (amended). [Values()] returns the mapping as it is. The mapping is nil
    on every fresh Result, with or without a response; [extractValues] leaves
    it nil when there is no response and when the body is the JSON null, makes
    it the members of the body when that is an object, and makes it empty but
    not nil when the body is neither; a mapping that is not nil stays. *)
Theorem Values_reads_the_cache :
  (forall r, Values r = values r)
  /\ (forall e rp, Values (newResult e rp) = None)
  /\ (forall r, values r = None -> resp r = None ->
        exists r', extractValues r = Ret r' /\ Values r' = None)
  /\ (forall r rp, values r = None -> resp r = Some rp ->
        exists r', extractValues r = Ret r'
          /\ (forall members conv,
                json_decode (resp_Body rp) = Decoded (JObj members) conv ->
                Values r' = Some (store_members members ∅))
          /\ (forall conv, json_decode (resp_Body rp) = Decoded JNull conv ->
                Values r' = None)
          /\ ((forall members conv,
                 json_decode (resp_Body rp) <> Decoded (JObj members) conv) ->
              (forall conv, json_decode (resp_Body rp) <> Decoded JNull conv) ->
              Values r' = Some ∅))
  /\ (forall r m, values r = Some m ->
        exists r', extractValues r = Ret r' /\ Values r' = Some m).
Proof.
  split; [reflexivity|]. split; [reflexivity|]. split; [|split].
  - intros r Hv Hr. exists r. split; [apply extractValues_no_response; assumption|].
    exact Hv.
  - intros r rp Hv Hr. eexists. split; [apply extractValues_response; eassumption|].
    unfold Values. simpl. split; [|split].
    + intros members conv Hd. rewrite (Unmarshal_map_object _ members conv _ Hd).
      reflexivity.
    + intros conv Hd. apply (Unmarshal_map_null _ conv), Hd.
    + intros Hobj Hnull. apply Unmarshal_map_other; assumption.
  - intros r m Hv. exists r. split; [apply (extractValues_cached r m Hv) | exact Hv].
Qed.

End ResultProperties.

(** *** Cleaning a path *)

Lemma split_slash_no_slash (s : string) :
  Forall (fun e => no_slash e = true) (split_slash s).
Proof.
  induction s as [|c s IH]; simpl.
  - constructor; [reflexivity | constructor].
  - destruct (Ascii.eqb c "/") eqn:Hc.
    + constructor; [reflexivity | exact IH].
    + destruct (split_slash s) as [|seg rest]; simpl.
      * constructor; [simpl; rewrite Hc; reflexivity | constructor].
      * inversion IH as [|? ? Hseg Hrest]; subst.
        constructor; [simpl; rewrite Hc, Hseg; reflexivity | exact Hrest].
Qed.

Lemma clean_step_proper (out : list string) (elem : string) :
  no_slash elem = true ->
  Forall (fun e => proper_elem e = true) out ->
  Forall (fun e => proper_elem e = true) (clean_step true out elem).
Proof.
  intros Hns Hout. unfold clean_step.
  destruct (String.eqb elem "") eqn:H0; [exact Hout|].
  destruct (String.eqb elem ".") eqn:H1; [exact Hout|]. simpl.
  destruct (String.eqb elem "..") eqn:H2.
  - destruct out as [|top rest]; [constructor|].
    inversion Hout as [|? ? Htop Hrest]; subst.
    destruct (String.eqb top "..") eqn:Ht; [|exact Hrest].
    unfold proper_elem in Htop. rewrite Ht in Htop.
    rewrite !andb_false_r in Htop. simpl in Htop. discriminate.
  - constructor; [|exact Hout].
    unfold proper_elem. rewrite H0, H1, H2, Hns. reflexivity.
Qed.

Lemma fold_clean_proper (elems out : list string) :
  Forall (fun e => no_slash e = true) elems ->
  Forall (fun e => proper_elem e = true) out ->
  Forall (fun e => proper_elem e = true) (fold_left (clean_step true) elems out).
Proof.
  revert out. induction elems as [|elem elems IH]; intros out Hel Hout; simpl.
  - exact Hout.
  - inversion Hel as [|? ? Hns Hrest]; subst.
    apply IH; [exact Hrest | apply clean_step_proper; assumption].
Qed.

(** The elements of a cleaned rooted path are proper: no empty element (no
    doubled slash), no [.] and no [..]. *)
Lemma clean_elems_proper (path : string) :
  is_rooted path = true ->
  Forall (fun e => proper_elem e = true) (clean_elems path)
  /\ filepath_Clean path = "/" ++ join_slash (clean_elems path).
Proof.
  intros Hroot. split.
  - unfold clean_elems. rewrite Hroot. apply Forall_rev.
    apply fold_clean_proper; [apply split_slash_no_slash | constructor].
  - unfold filepath_Clean. rewrite Hroot. reflexivity.
Qed.

Lemma split_slash_elem_slash (e s : string) :
  no_slash e = true -> split_slash (e ++ "/" ++ s) = e :: split_slash s.
Proof.
  induction e as [|c e IH]; intros Hns; simpl in *.
  - reflexivity.
  - destruct (Ascii.eqb c "/") eqn:Hc; [discriminate|]. simpl in Hns.
    rewrite (IH Hns). reflexivity.
Qed.

Lemma split_slash_elem (e : string) :
  no_slash e = true -> split_slash e = [e].
Proof.
  induction e as [|c e IH]; intros Hns; simpl in *.
  - reflexivity.
  - destruct (Ascii.eqb c "/") eqn:Hc; [discriminate|]. simpl in Hns.
    rewrite (IH Hns). reflexivity.
Qed.

Lemma proper_elem_no_slash (e : string) : proper_elem e = true -> no_slash e = true.
Proof. unfold proper_elem. intros Hp. apply andb_true_iff in Hp as [_ Hns]. exact Hns. Qed.

Lemma split_join_slash (e : string) (elems : list string) :
  Forall (fun e => proper_elem e = true) (e :: elems) ->
  split_slash (join_slash (e :: elems)) = e :: elems.
Proof.
  revert e. induction elems as [|e' elems IH]; intros e Hall.
  - inversion Hall; subst. apply split_slash_elem, proper_elem_no_slash. assumption.
  - inversion Hall as [|? ? He Hrest]; subst.
    change (join_slash (e :: e' :: elems)) with (e ++ "/" ++ join_slash (e' :: elems)).
    rewrite (split_slash_elem_slash _ _ (proper_elem_no_slash e He)).
    rewrite (IH e' Hrest). reflexivity.
Qed.

Lemma clean_step_keeps_proper (out : list string) (e : string) :
  proper_elem e = true -> clean_step true out e = e :: out.
Proof.
  unfold proper_elem, clean_step. intros Hp.
  apply andb_true_iff in Hp as [Hp _]. apply andb_true_iff in Hp as [Hp H2].
  apply andb_true_iff in Hp as [H0 H1].
  apply negb_true_iff in H0, H1, H2. rewrite H0, H1, H2. reflexivity.
Qed.

Lemma fold_clean_keeps_proper (elems out : list string) :
  Forall (fun e => proper_elem e = true) elems ->
  fold_left (clean_step true) elems out = (rev elems ++ out)%list.
Proof.
  revert out. induction elems as [|e elems IH]; intros out Hall; simpl.
  - reflexivity.
  - inversion Hall as [|? ? He Hrest]; subst.
    rewrite (clean_step_keeps_proper out e He), (IH _ Hrest).
    rewrite <- app_assoc. reflexivity.
Qed.

(** Clean leaves a rooted path of proper elements as it is. *)
Lemma Clean_fixes_clean_paths (elems : list string) :
  Forall (fun e => proper_elem e = true) elems ->
  filepath_Clean ("/" ++ join_slash elems) = "/" ++ join_slash elems.
Proof.
  intros Hall. unfold filepath_Clean, clean_elems.
  change (is_rooted ("/" ++ join_slash elems)) with true. cbv iota.
  change (split_slash ("/" ++ join_slash elems))
    with ("" :: split_slash (join_slash elems)).
  destruct elems as [|e elems]; [reflexivity|].
  rewrite (split_join_slash e elems Hall).
  change (fold_left (clean_step true) ("" :: e :: elems) [])
    with (fold_left (clean_step true) (e :: elems) []).
  rewrite (fold_clean_keeps_proper _ [] Hall), app_nil_r, rev_involutive.
  reflexivity.
Qed.

(** Cleaning a rooted path twice is cleaning it once. *)
Lemma Clean_idempotent_rooted (path : string) :
  is_rooted path = true ->
  filepath_Clean (filepath_Clean path) = filepath_Clean path.
Proof.
  intros Hroot. destruct (clean_elems_proper path Hroot) as [Hall Heq].
  rewrite Heq. apply Clean_fixes_clean_paths, Hall.
Qed.

Section ClientProperties.
Context `{GoLib} {P : Type} `{Payload P} `{Transport P}.

(** *** The URL check *)

Lemma checkURL_error (s e : string) :
  url_Parse s = Err e -> checkURL s = ("", Some e).
Proof. intros Hp. unfold checkURL. rewrite Hp. reflexivity. Qed.

Lemma checkURL_ok (s : string) (u : URL) :
  url_Parse s = Ok u ->
  checkURL s = (URL_String (set_Path (filepath_Clean (Path u)) u), None).
Proof. intros Hp. unfold checkURL. rewrite Hp. reflexivity. Qed.

(** *** The query map *)

Lemma requestToMap_marshal_error (request : P) (e : string) :
  json_Marshal request = Err e -> requestToMap request = (None, Some e).
Proof. intros Hm. unfold requestToMap. rewrite Hm. reflexivity. Qed.

Lemma requestToMap_unmarshal_error (request : P) (buff e : string) :
  json_Marshal request = Ok buff -> (Unmarshal_map buff None).2 = Some e ->
  requestToMap request = (None, Some e).
Proof.
  intros Hm Hu. unfold requestToMap. rewrite Hm.
  destruct (Unmarshal_map buff None) as [params e']. simpl in Hu. subst e'.
  reflexivity.
Qed.

Lemma requestToMap_ok (request : P) (buff : string) params :
  json_Marshal request = Ok buff -> Unmarshal_map buff None = (params, None) ->
  requestToMap request
  = (Some (range_render (map_to_list (default ∅ params)) ∅), None).
Proof. intros Hm Hu. unfold requestToMap. rewrite Hm, Hu. reflexivity. Qed.

Lemma range_render_lookup (entries : list (string * jvalue float64))
    (acc : gmap string string) (k : string) :
  NoDup entries.*1 ->
  range_render entries acc !! k
  = match (list_to_map entries : gmap string (jvalue float64)) !! k with
    | Some v => Some (Sprintf_v v)
    | None => acc !! k
    end.
Proof.
  revert acc. induction entries as [|[k0 v0] entries IH]; intros acc Hnd.
  - simpl. rewrite lookup_empty. reflexivity.
  - rewrite fmap_cons in Hnd. apply NoDup_cons in Hnd as [Hk0 Hnd].
    change (range_render ((k0, v0) :: entries) acc)
      with (range_render entries (<[k0 := Sprintf_v v0]> acc)).
    rewrite (IH _ Hnd). rewrite list_to_map_cons.
    destruct (decide (k0 = k)) as [->|Hne].
    + rewrite (not_elem_of_list_to_map_1 _ _ Hk0). rewrite !lookup_insert_eq.
      reflexivity.
    + rewrite (lookup_insert_ne _ k0 k v0 Hne).
      destruct (list_to_map entries !! k); [reflexivity|].
      apply lookup_insert_ne, Hne.
Qed.

(** The loop over the decoded map gives the same query map in whatever order
    the entries come. *)
Lemma range_render_any_order (m : gmap string (jvalue float64))
    (entries : list (string * jvalue float64)) :
  Permutation entries (map_to_list m) ->
  range_render entries ∅ = Sprintf_v <$> m.
Proof.
  intros Hperm. apply map_eq. intros k.
  assert (Hnd : NoDup entries.*1).
  { rewrite Hperm. apply NoDup_fst_map_to_list. }
  rewrite (range_render_lookup entries ∅ k Hnd), lookup_empty, lookup_fmap.
  assert (Hm : (list_to_map entries : gmap string (jvalue float64)) = m).
  { rewrite (list_to_map_proper _ _ Hnd Hperm). apply list_to_map_to_list. }
  rewrite Hm. destruct (m !! k); reflexivity.
Qed.

(** *** What a verb sends *)

Lemma SetQueryParams_R (params : gmap string string) :
  SetQueryParams params (R : resty_Request P)
  = {| req_Body := None; QueryParam := params; RawRequest := None |}.
Proof. unfold SetQueryParams, R. simpl. rewrite (right_id_L ∅ (∪)). reflexivity. Qed.

Lemma apply_options_nil_cases (options : list Option) :
  apply_options_nil options = Ret tt \/ apply_options_nil options = Panic.
Proof. destruct (apply_options_nil options) as [[]|]; [left | right]; reflexivity. Qed.

Lemma apply_options_nil_panics (options : list Option) (o : Option) :
  In o options -> on_nil o = Panic -> apply_options_nil options = Panic.
Proof.
  intros Hin Hp. induction options as [|o' options IH]; [destruct Hin|].
  simpl. destruct Hin as [->|Hin].
  - rewrite Hp. reflexivity.
  - destruct (on_nil o') as [u|]; [|reflexivity]. simpl. apply IH, Hin.
Qed.

Lemma call_options_nil (options : list Option) :
  (apply_options_nil options = Ret tt -> call_options options None = Ret None)
  /\ (apply_options_nil options = Panic -> call_options options None = Panic).
Proof. unfold call_options. split; intros ->; reflexivity. Qed.

Lemma POST_panics (c : clientImpl) (path : string) (request : P) (options : list Option)
    (net : list (Sent P)) :
  apply_options_nil options = Panic -> POST c path request options net = Panic.
Proof.
  intros Ho. unfold POST. simpl.
  rewrite (proj2 (call_options_nil options) Ho). reflexivity.
Qed.

Lemma GET_DELETE_panic (c : clientImpl) (path : string) (request : P)
    (options : list Option) (net : list (Sent P)) :
  (requestToMap request).2 = None -> apply_options_nil options = Panic ->
  GET c path request options net = Panic /\ DELETE c path request options net = Panic.
Proof.
  intros Hq Ho. unfold GET, DELETE.
  destruct (requestToMap request) as [params [e|]]; [discriminate|].
  rewrite SetQueryParams_R. simpl.
  rewrite (proj2 (call_options_nil options) Ho). split; reflexivity.
Qed.

Lemma POST_sent (c : clientImpl) (path : string) (request : P) (options : list Option)
    (net : list (Sent P)) (u : URL) :
  apply_options_nil options = Ret tt ->
  url_Parse (url c ++ path) = Ok u ->
  let s := {| sent_Method := "POST";
              sent_URL := URL_String (set_Path (filepath_Clean (Path u)) u);
              sent_Request :=
                {| req_Body := Some request; QueryParam := ∅; RawRequest := None |} |} in
  POST c path request options net
  = Ret (newResult (RoundTrip net s).2 (RoundTrip net s).1, (net ++ [s])%list).
Proof.
  intros Ho Hp s. unfold POST. simpl.
  rewrite (proj1 (call_options_nil options) Ho). outcome_simpl.
  rewrite (checkURL_ok _ u Hp). unfold Execute.
  cbv zeta. change (RoundTrip net _) with (RoundTrip net s).
  destruct (RoundTrip net s) as [rsp e]. reflexivity.
Qed.

Lemma GET_sent (c : clientImpl) (path : string) (request : P) (options : list Option)
    (net : list (Sent P)) (u : URL) params :
  apply_options_nil options = Ret tt ->
  requestToMap request = (Some params, None) ->
  url_Parse (url c ++ path) = Ok u ->
  let s := {| sent_Method := "GET";
              sent_URL := URL_String (set_Path (filepath_Clean (Path u)) u);
              sent_Request :=
                {| req_Body := None; QueryParam := params; RawRequest := None |} |} in
  GET c path request options net
  = Ret (newResult (RoundTrip net s).2 (RoundTrip net s).1, (net ++ [s])%list).
Proof.
  intros Ho Hq Hp s. unfold GET. rewrite Hq.
  change (default ∅ (Some params)) with params. rewrite SetQueryParams_R. simpl.
  rewrite (proj1 (call_options_nil options) Ho). outcome_simpl.
  rewrite (checkURL_ok _ u Hp). unfold Execute.
  cbv zeta. change (RoundTrip net _) with (RoundTrip net s).
  destruct (RoundTrip net s) as [rsp e]. reflexivity.
Qed.

Lemma DELETE_sent (c : clientImpl) (path : string) (request : P) (options : list Option)
    (net : list (Sent P)) (u : URL) params :
  apply_options_nil options = Ret tt ->
  requestToMap request = (Some params, None) ->
  url_Parse (url c ++ path) = Ok u ->
  let s := {| sent_Method := "DELETE";
              sent_URL := URL_String (set_Path (filepath_Clean (Path u)) u);
              sent_Request :=
                {| req_Body := None; QueryParam := params; RawRequest := None |} |} in
  DELETE c path request options net
  = Ret (newResult (RoundTrip net s).2 (RoundTrip net s).1, (net ++ [s])%list).
Proof.
  intros Ho Hq Hp s. unfold DELETE. rewrite Hq.
  change (default ∅ (Some params)) with params. rewrite SetQueryParams_R. simpl.
  rewrite (proj1 (call_options_nil options) Ho). outcome_simpl.
  rewrite (checkURL_ok _ u Hp). unfold Execute.
  cbv zeta. change (RoundTrip net _) with (RoundTrip net s).
  destruct (RoundTrip net s) as [rsp e]. reflexivity.
Qed.

(** *** Failures before the request *)

Lemma failed_Result (e : string) :
  Fail (newResult (Some e) None) = Ret true
  /\ Error (newResult (Some e) None) = Ret (Some e)
  /\ Response (newResult (Some e) None) = None.
Proof.
  split; [|split; [|reflexivity]].
  - apply (Fail_OK _ false). apply (OK_error _ e). reflexivity.
  - apply Error_local. reflexivity.
Qed.

Lemma GET_DELETE_query_error (c : clientImpl) (path : string) (request : P)
    (options : list Option) (net : list (Sent P)) (e : string) :
  requestToMap request = (None, Some e) ->
  GET c path request options net = Ret (newResult (Some e) None, net)
  /\ DELETE c path request options net = Ret (newResult (Some e) None, net).
Proof. intros Hq. unfold GET, DELETE. rewrite Hq. split; reflexivity. Qed.

Lemma POST_URL_error (c : clientImpl) (path : string) (request : P)
    (options : list Option) (net : list (Sent P)) (e : string) :
  apply_options_nil options = Ret tt -> url_Parse (url c ++ path) = Err e ->
  POST c path request options net = Ret (newResult (Some e) None, net).
Proof.
  intros Ho Hp. unfold POST. simpl.
  rewrite (proj1 (call_options_nil options) Ho). outcome_simpl.
  rewrite (checkURL_error _ e Hp). reflexivity.
Qed.

Lemma GET_DELETE_URL_error (c : clientImpl) (path : string) (request : P)
    (options : list Option) (net : list (Sent P)) (e : string) :
  apply_options_nil options = Ret tt -> (requestToMap request).2 = None ->
  url_Parse (url c ++ path) = Err e ->
  GET c path request options net = Ret (newResult (Some e) None, net)
  /\ DELETE c path request options net = Ret (newResult (Some e) None, net).
Proof.
  intros Ho Hq Hp. unfold GET, DELETE.
  destruct (requestToMap request) as [params [e'|]]; [discriminate|].
  rewrite SetQueryParams_R. simpl.
  rewrite (proj1 (call_options_nil options) Ho). outcome_simpl.
  rewrite (checkURL_error _ e Hp). split; reflexivity.
Qed.

(** A verb call whose options all return on the nil raw request (a call
    without options among them) and whose URL does not parse returns the
    Result of that error and no response, for which [Fail()] is true,
    [Error()] is the error and [Response()] is nil, and hands nothing to the
    transport. GET and DELETE do the same, whatever the options, when the
    payload does not marshal or its JSON does not decode into a map. *)
Theorem preflight_failure_returns (c : clientImpl) (path : string) (request : P)
    (options : list Option) (net : list (Sent P)) (e : string) :
  let failed := newResult (Some e) None in
  (Fail failed = Ret true /\ Error failed = Ret (Some e) /\ Response failed = None)
  /\ (apply_options_nil options = Ret tt -> url_Parse (url c ++ path) = Err e ->
        POST c path request options net = Ret (failed, net))
  /\ (json_Marshal request = Err e ->
        GET c path request options net = Ret (failed, net)
        /\ DELETE c path request options net = Ret (failed, net))
  /\ (forall buff, json_Marshal request = Ok buff ->
        (Unmarshal_map buff None).2 = Some e ->
        GET c path request options net = Ret (failed, net)
        /\ DELETE c path request options net = Ret (failed, net))
  /\ (apply_options_nil options = Ret tt -> (requestToMap request).2 = None ->
        url_Parse (url c ++ path) = Err e ->
        GET c path request options net = Ret (failed, net)
        /\ DELETE c path request options net = Ret (failed, net)).
Proof.
  intros failed. split; [apply failed_Result|].
  split; [|split; [|split]].
  - apply POST_URL_error.
  - intros Hm. apply GET_DELETE_query_error, requestToMap_marshal_error, Hm.
  - intros buff Hm Hu.
    apply GET_DELETE_query_error, (requestToMap_unmarshal_error _ buff); assumption.
  - apply GET_DELETE_URL_error.
Qed.

(** C3. With a [WithJWToken] among the options, a verb call whose URL does
    not parse never gets to the URL check: the options run first, on the nil
    raw request of the fresh resty request, and the call panics, where the
    same call without options returns the Result of the parse error (GET and
    DELETE once the query map is built). *)
Theorem preflight_failure_unreached (c : clientImpl) (path : string) (request : P)
    (token : string) (options : list Option) (net : list (Sent P)) (e : string) :
  In (WithJWToken token) options ->
  url_Parse (url c ++ path) = Err e ->
  (POST c path request options net = Panic
   /\ POST c path request [] net = Ret (newResult (Some e) None, net))
  /\ ((requestToMap request).2 = None ->
      (GET c path request options net = Panic
       /\ GET c path request [] net = Ret (newResult (Some e) None, net))
      /\ (DELETE c path request options net = Panic
          /\ DELETE c path request [] net = Ret (newResult (Some e) None, net))).
Proof.
  intros Hin Hp.
  pose proof (apply_options_nil_panics options (WithJWToken token) Hin eq_refl) as Ho.
  split.
  - split; [apply POST_panics, Ho|]. apply POST_URL_error; [reflexivity | exact Hp].
  - intros Hq.
    destruct (GET_DELETE_panic c path request options net Hq Ho) as [Hget Hdel].
    destruct (GET_DELETE_URL_error c path request [] net e eq_refl Hq Hp)
      as [Hget' Hdel'].
    repeat split; assumption.
Qed.

(** *** The unused auth field *)

(** C10. [New] leaves the auth field nil, and no verb reads it (nor the
    lock): two clients with the same base URL give, for the same path,
    payload, options and network, the same Result and send the same
    requests. *)
Theorem auth_unused (c1 c2 : clientImpl) (path : string) (request : P)
    (options : list Option) (net : list (Sent P)) :
  url c1 = url c2 ->
  (forall u, auth (New u) = None)
  /\ POST c1 path request options net = POST c2 path request options net
  /\ GET c1 path request options net = GET c2 path request options net
  /\ DELETE c1 path request options net = DELETE c2 path request options net.
Proof.
  intros Hurl. split; [reflexivity|].
  unfold POST, GET, DELETE. rewrite Hurl. repeat split; reflexivity.
Qed.

End ClientProperties.

Section VariantProperties.
Context `{GoLib} {P : Type} `{Payload P} `{Transport P}.

(** *** The variant of client.go *)

Lemma ClientGo_POST_sent (c : clientImpl) (path : string) (request : P)
    (options : list Option) (net : list (Sent P)) :
  apply_options_nil options = Ret tt ->
  let s := {| sent_Method := "POST";
              sent_URL := url c ++ "/" ++ path;
              sent_Request :=
                {| req_Body := Some request; QueryParam := ∅; RawRequest := None |} |} in
  ClientGo.POST c path request options net
  = Ret (newResult (RoundTrip net s).2 (RoundTrip net s).1, (net ++ [s])%list).
Proof.
  intros Ho s. unfold ClientGo.POST. simpl.
  rewrite (proj1 (call_options_nil options) Ho). outcome_simpl.
  unfold Execute. cbv zeta. change (RoundTrip net _) with (RoundTrip net s).
  destruct (RoundTrip net s) as [rsp e]. reflexivity.
Qed.

Lemma ClientGo_query_error (c : clientImpl) (path : string) (request : P)
    (options : list Option) (net : list (Sent P)) (buff e : string) :
  json_Marshal request = Ok buff ->
  (ClientGo.Unmarshal_string_map buff None).2 = Some e ->
  ClientGo.GET c path request options net = Ret (newResult (Some e) None, net)
  /\ ClientGo.DELETE c path request options net = Ret (newResult (Some e) None, net).
Proof.
  intros Hm Hu. unfold ClientGo.GET, ClientGo.DELETE. rewrite Hm.
  destruct (ClientGo.Unmarshal_string_map buff None) as [params e'].
  simpl in Hu. subst e'. split; reflexivity.
Qed.

Lemma ClientGo_query_sent (c : clientImpl) (path : string) (request : P)
    (options : list Option) (net : list (Sent P)) (buff : string) params :
  apply_options_nil options = Ret tt ->
  json_Marshal request = Ok buff ->
  ClientGo.Unmarshal_string_map buff None = (Some params, None) ->
  let r := {| req_Body := None; QueryParam := params; RawRequest := None |} in
  let get := {| sent_Method := "GET"; sent_URL := url c ++ "/" ++ path;
                sent_Request := r |} in
  let del := {| sent_Method := "DELETE"; sent_URL := url c ++ "/" ++ path;
                sent_Request := r |} in
  ClientGo.GET c path request options net
  = Ret (newResult (RoundTrip net get).2 (RoundTrip net get).1, (net ++ [get])%list)
  /\ ClientGo.DELETE c path request options net
     = Ret (newResult (RoundTrip net del).2 (RoundTrip net del).1, (net ++ [del])%list).
Proof.
  intros Ho Hm Hu r get del. unfold ClientGo.GET, ClientGo.DELETE.
  rewrite Hm, Hu. change (default ∅ (Some params)) with params.
  rewrite SetQueryParams_R. simpl.
  rewrite (proj1 (call_options_nil options) Ho). outcome_simpl.
  unfold Execute. cbv zeta. split.
  - change (RoundTrip net _) with (RoundTrip net get).
    destruct (RoundTrip net get) as [rsp e]. reflexivity.
  - change (RoundTrip net _) with (RoundTrip net del).
    destruct (RoundTrip net del) as [rsp e]. reflexivity.
Qed.

(** In client.go nothing fills the mapping: on the Result of a verb that got
    a response, [Value] finds no key, whatever the body. *)
Lemma ClientGo_Value_never_extracts {T : Type} `{Target T} (e : error)
    (rp : resty_Response) (key : string) (v : T) :
  ClientGo.Value key v (newResult e (Some rp))
  = Ret (Some ("unknown return value " ++ key ++ nl ++ resp_Body rp), v).
Proof.
  unfold ClientGo.Value.
  apply (Value_lookup_absent (newResult e (Some rp)) rp key v); reflexivity.
Qed.

(** A member that is a number, a bool, an array or an object makes the
    decoding into [map[string]string] fail. *)
Lemma Unmarshal_string_map_member_error (buff : string) members conv k v m :
  json_decode buff = Decoded (JObj members) conv ->
  In (k, v) members ->
  (forall s, v <> JStr s) -> v <> JNull ->
  exists e, (ClientGo.Unmarshal_string_map buff m).2 = Some e.
Proof.
  intros Hd Hin Hs Hn. unfold ClientGo.Unmarshal_string_map. rewrite Hd. simpl.
  clear Hd. induction members as [|[k0 v0] members IH]; [destruct Hin|].
  simpl. destruct (ClientGo.string_elem v0) as [s0 [e0|]] eqn:He0; simpl.
  - eexists. reflexivity.
  - destruct Hin as [Heq|Hin]; [|apply IH, Hin].
    injection Heq as -> ->. exfalso.
    destruct v; simpl in He0; try discriminate.
    + apply Hn. reflexivity.
    + apply (Hs s). reflexivity.
Qed.

Lemma Unmarshal_string_map_strings (buff : string) members conv :
  json_decode buff = Decoded (JObj members) conv ->
  Forall (fun kv => exists s, kv.2 = JStr s) members ->
  ClientGo.Unmarshal_string_map buff None
  = (Some (store_members
             (map (fun kv => (kv.1, (ClientGo.string_elem kv.2).1)) members) ∅),
     None).
Proof.
  intros Hd Hall. unfold ClientGo.Unmarshal_string_map. rewrite Hd. simpl.
  f_equal. clear Hd. induction Hall as [|[k v] members [s Hs] _ IH]; [reflexivity|].
  simpl in Hs. subst v. simpl. exact IH.
Qed.

(** *** The target URL *)

(** C4 (amended). In the variant with [checkURL] a verb call whose options
    loop returns sends to the URL got by concatenating base URL and path,
    parsing it and cleaning its path; the cleaned path of a rooted path
    consists of proper elements (no doubled slash, no [.], no [..]). In the
    variant of client.go such a call sends to base URL, a slash and the path,
    as they are. *)
Theorem target_URL (c : clientImpl) (path : string) (request : P)
    (options : list Option) (net : list (Sent P)) :
  (forall u, url_Parse (url c ++ path) = Ok u ->
     let target := URL_String (set_Path (filepath_Clean (Path u)) u) in
     checkURL (url c ++ path) = (target, None)
     /\ (apply_options_nil options = Ret tt ->
          (exists s, POST c path request options net
                     = Ret (newResult (RoundTrip net s).2 (RoundTrip net s).1,
                            (net ++ [s])%list)
                     /\ sent_URL s = target)
          /\ (forall params, requestToMap request = (Some params, None) ->
                (exists s, GET c path request options net
                           = Ret (newResult (RoundTrip net s).2 (RoundTrip net s).1,
                                  (net ++ [s])%list)
                           /\ sent_URL s = target)
                /\ (exists s, DELETE c path request options net
                              = Ret (newResult (RoundTrip net s).2 (RoundTrip net s).1,
                                     (net ++ [s])%list)
                              /\ sent_URL s = target)))
     /\ (is_rooted (Path u) = true ->
           Forall (fun e => proper_elem e = true) (clean_elems (Path u))
           /\ filepath_Clean (Path u) = "/" ++ join_slash (clean_elems (Path u))
           /\ filepath_Clean (filepath_Clean (Path u)) = filepath_Clean (Path u)))
  /\ (apply_options_nil options = Ret tt ->
       (exists s, ClientGo.POST c path request options net
                  = Ret (newResult (RoundTrip net s).2 (RoundTrip net s).1,
                         (net ++ [s])%list)
                  /\ sent_URL s = url c ++ "/" ++ path)
       /\ (forall buff params, json_Marshal request = Ok buff ->
             ClientGo.Unmarshal_string_map buff None = (Some params, None) ->
             (exists s, ClientGo.GET c path request options net
                        = Ret (newResult (RoundTrip net s).2 (RoundTrip net s).1,
                               (net ++ [s])%list)
                        /\ sent_URL s = url c ++ "/" ++ path)
             /\ (exists s, ClientGo.DELETE c path request options net
                           = Ret (newResult (RoundTrip net s).2 (RoundTrip net s).1,
                                  (net ++ [s])%list)
                           /\ sent_URL s = url c ++ "/" ++ path))).
Proof.
  split.
  - intros u Hp target. split; [apply checkURL_ok, Hp|]. split.
    + intros Ho. split.
      * eexists. split; [apply (POST_sent c path request options net u Ho Hp)|].
        reflexivity.
      * intros params Hq. split.
        -- eexists.
           split; [apply (GET_sent c path request options net u params Ho Hq Hp)|].
           reflexivity.
        -- eexists.
           split; [apply (DELETE_sent c path request options net u params Ho Hq Hp)|].
           reflexivity.
    + intros Hroot. destruct (clean_elems_proper (Path u) Hroot) as [Hall Heq].
      split; [exact Hall|]. split; [exact Heq|].
      apply Clean_idempotent_rooted, Hroot.
  - intros Ho. split.
    + eexists. split; [apply (ClientGo_POST_sent c path request options net Ho)|].
      reflexivity.
    + intros buff params Hm Hu.
      destruct (ClientGo_query_sent c path request options net buff params Ho Hm Hu)
        as [Hget Hdel].
      split; eexists; (split; [eassumption | reflexivity]).
Qed.

(** *** The query map *)

(** C5 (amended). [requestToMap] marshals the payload, decodes the text into
    a map of JSON values and renders every value with [%v]; the result does
    not depend on the order in which the loop meets the entries, and a GET or
    DELETE whose options loop returns sends it as the query parameters. In
    the variant of client.go GET and DELETE decode the text into a map of
    strings instead: string members are taken as they are, and a member that
    is a number, a bool, an array or an object makes the call fail before the
    options run and before any request. *)
Theorem query_map_conversion (c : clientImpl) (path : string) (request : P)
    (options : list Option) (net : list (Sent P)) :
  (forall buff params,
      json_Marshal request = Ok buff -> Unmarshal_map buff None = (params, None) ->
      requestToMap request = (Some (Sprintf_v <$> default ∅ params), None)
      /\ (forall k, (Sprintf_v <$> default ∅ params) !! k
                    = Sprintf_v <$> (default ∅ params !! k))
      /\ (forall entries, Permutation entries (map_to_list (default ∅ params)) ->
            range_render entries ∅ = Sprintf_v <$> default ∅ params)
      /\ (forall u, apply_options_nil options = Ret tt ->
            url_Parse (url c ++ path) = Ok u ->
            (exists s, GET c path request options net
                       = Ret (newResult (RoundTrip net s).2 (RoundTrip net s).1,
                              (net ++ [s])%list)
                       /\ QueryParam (sent_Request s) = Sprintf_v <$> default ∅ params)
            /\ (exists s, DELETE c path request options net
                          = Ret (newResult (RoundTrip net s).2 (RoundTrip net s).1,
                                 (net ++ [s])%list)
                          /\ QueryParam (sent_Request s)
                             = Sprintf_v <$> default ∅ params)))
  /\ (forall buff members conv,
        json_Marshal request = Ok buff ->
        json_decode buff = Decoded (JObj members) conv ->
        (Forall (fun kv => exists s, kv.2 = JStr s) members ->
           ClientGo.Unmarshal_string_map buff None
           = (Some (store_members
                      (map (fun kv => (kv.1, (ClientGo.string_elem kv.2).1)) members) ∅),
              None))
        /\ (forall k v, In (k, v) members -> (forall s, v <> JStr s) -> v <> JNull ->
              exists e,
                ClientGo.GET c path request options net
                = Ret (newResult (Some e) None, net)
                /\ ClientGo.DELETE c path request options net
                   = Ret (newResult (Some e) None, net))).
Proof.
  split.
  - intros buff params Hm Hu.
    assert (Hq : requestToMap request = (Some (Sprintf_v <$> default ∅ params), None)).
    { rewrite (requestToMap_ok request buff params Hm Hu).
      rewrite (range_render_any_order (default ∅ params) _ (Permutation_refl _)).
      reflexivity. }
    split; [exact Hq|]. split; [intros k; apply lookup_fmap|].
    split; [intros entries; apply range_render_any_order|].
    intros u Ho Hp. split.
    + eexists. split; [apply (GET_sent c path request options net u _ Ho Hq Hp)|].
      reflexivity.
    + eexists. split; [apply (DELETE_sent c path request options net u _ Ho Hq Hp)|].
      reflexivity.
  - intros buff members conv Hm Hd. split.
    + apply (Unmarshal_string_map_strings buff members conv Hd).
    + intros k v Hin Hs Hn.
      destruct (Unmarshal_string_map_member_error buff members conv k v None
                  Hd Hin Hs Hn) as [e He].
      exists e. apply (ClientGo_query_error c path request options net buff e Hm He).
Qed.

(** *** The options in the variant of client.go *)

(** The verbs of client.go call the options on the nil raw request as well:
    with a [WithJWToken] among the options POST panics, and GET and DELETE
    panic once the payload is decoded into the map of strings; when all
    options return, the call is the call without options. *)
Theorem ClientGo_options_on_nil_request (c : clientImpl) (path : string) (request : P)
    (options : list Option) (net : list (Sent P)) :
  (forall token, In (WithJWToken token) options ->
     ClientGo.POST c path request options net = Panic
     /\ (forall buff params, json_Marshal request = Ok buff ->
           ClientGo.Unmarshal_string_map buff None = (params, None) ->
           ClientGo.GET c path request options net = Panic
           /\ ClientGo.DELETE c path request options net = Panic))
  /\ (apply_options_nil options = Ret tt ->
       ClientGo.POST c path request options net = ClientGo.POST c path request [] net
       /\ ClientGo.GET c path request options net = ClientGo.GET c path request [] net
       /\ ClientGo.DELETE c path request options net
          = ClientGo.DELETE c path request [] net).
Proof.
  split.
  - intros token Hin.
    pose proof (apply_options_nil_panics options (WithJWToken token) Hin eq_refl) as Ho.
    apply (call_options_nil options) in Ho. split.
    + unfold ClientGo.POST. simpl. rewrite Ho. reflexivity.
    + intros buff params Hm Hu. unfold ClientGo.GET, ClientGo.DELETE.
      rewrite Hm, Hu. simpl. rewrite Ho. split; reflexivity.
  - intros Ho. apply (call_options_nil options) in Ho.
    unfold ClientGo.POST, ClientGo.GET, ClientGo.DELETE.
    split; [|split].
    + simpl. rewrite Ho. reflexivity.
    + destruct (json_Marshal request) as [buff|e]; [|reflexivity].
      destruct (ClientGo.Unmarshal_string_map buff None) as [params [e|]];
        [reflexivity|].
      simpl. rewrite Ho. reflexivity.
    + destruct (json_Marshal request) as [buff|e]; [|reflexivity].
      destruct (ClientGo.Unmarshal_string_map buff None) as [params [e|]];
        [reflexivity|].
      simpl. rewrite Ho. reflexivity.
Qed.

End VariantProperties.

(** *** Options *)

Lemma apply_options_app (o1 o2 : list Option) (raw : http_Request) :
  apply_options (o1 ++ o2)%list raw = apply_options o2 (apply_options o1 raw).
Proof. unfold apply_options. apply fold_left_app. Qed.

Lemma WithJWToken_Authorization (token : string) (raw : http_Request) :
  Header (WithJWToken token raw) !! "Authorization"
  = Some (default [] (Header raw !! "Authorization") ++ ["Bearer " +:+ token])%list.
Proof. unfold WithJWToken, Header_Add. simpl. apply lookup_insert_eq. Qed.

Lemma WithJWToken_other (token key : string) (raw : http_Request) :
  key <> "Authorization" ->
  Header (WithJWToken token raw) !! key = Header raw !! key.
Proof.
  intros Hne. unfold WithJWToken, Header_Add. simpl.
  apply lookup_insert_ne. congruence.
Qed.

Section OptionProperties.
Context `{GoLib} {P : Type} `{Payload P} `{Transport P}.

(** C6. The verbs do not apply the options to a request: they call each
    option on the raw request of a fresh resty request, which is nil, so a
    [WithJWToken] anywhere among the options makes the call panic when it
    reaches for the header (GET and DELETE once the query map is built): no
    Authorization header is set and no request is sent. *)
Theorem options_run_on_nil_request (c : clientImpl) (path : string) (request : P)
    (token : string) (options : list Option) (net : list (Sent P)) :
  In (WithJWToken token) options ->
  RawRequest (SetBody request R) = None
  /\ (forall params, RawRequest (SetQueryParams params (R : resty_Request P)) = None)
  /\ call_options options None = Panic
  /\ POST c path request options net = Panic
  /\ ((requestToMap request).2 = None ->
      GET c path request options net = Panic
      /\ DELETE c path request options net = Panic).
Proof.
  intros Hin.
  pose proof (apply_options_nil_panics options (WithJWToken token) Hin eq_refl) as Ho.
  split; [reflexivity|]. split; [reflexivity|].
  split; [apply call_options_nil, Ho|].
  split; [apply POST_panics, Ho|].
  intros Hq. apply GET_DELETE_panic; assumption.
Qed.

End OptionProperties.

(** * Further properties of the Result *)

Section ResultInvariants.
Context `{GoLib}.

Lemma extractValues_nil_response (r : resultImpl) :
  resp r = None -> extractValues r = Ret r.
Proof.
  intros Hr. destruct (values r) as [m|] eqn:Hv.
  - apply (extractValues_cached r m Hv).
  - apply (extractValues_no_response r Hv Hr).
Qed.

(** Extraction returns, touches only the mapping, never replaces a mapping
    that is there, and has nothing left to do on its own result. *)
Lemma extractValues_stable (r : resultImpl) :
  exists r', extractValues r = Ret r'
    /\ err r' = err r /\ resp r' = resp r
    /\ (forall m, values r = Some m -> values r' = Some m)
    /\ extractValues r' = Ret r'.
Proof.
  destruct (values r) as [m|] eqn:Hv.
  - exists r. rewrite (extractValues_cached r m Hv).
    repeat split; try reflexivity. intros m' Hm'. rewrite Hv. exact Hm'.
  - destruct (resp r) as [rp|] eqn:Hr.
    + exists (set_values (Unmarshal_map (resp_Body rp) (Some ∅)).1 r).
      split; [apply (extractValues_response r rp Hv Hr)|].
      split; [reflexivity|]. split; [exact Hr|]. split; [discriminate|].
      destruct ((Unmarshal_map (resp_Body rp) (Some ∅)).1) as [m|] eqn:Hm.
      * apply (extractValues_cached _ m). reflexivity.
      * rewrite (extractValues_response (set_values None r) rp eq_refl Hr), Hm.
        reflexivity.
    + exists r. split; [apply (extractValues_no_response r Hv Hr)|].
      split; [reflexivity|]. split; [exact Hr|]. split; [discriminate|].
      apply (extractValues_no_response r Hv Hr).
Qed.

Lemma Value_inv {T : Type} `{Target T} (key : string) (v : T) (r r1 : resultImpl) out :
  extractValues r = Ret r1 -> Value key v r = Ret out ->
  Value_lookup key v r1 = Ret out.1 /\ out.2 = r1.
Proof.
  intros Hx Hv. rewrite (Value_unfold r r1 key v Hx) in Hv.
  destruct (Value_lookup key v r1) as [[e v']|]; [|discriminate].
  injection Hv as <-. split; reflexivity.
Qed.

(** A [Value] call that returns leaves the error and the response of the
    Result alone and never replaces a mapping that is there; after it, no
    further [Value] call (of any key, into any target) changes the Result. *)
Theorem Value_keeps_the_Result {T : Type} `{Target T} (key : string) (v v' : T)
    (r r' : resultImpl) (e : error) :
  Value key v r = Ret (e, v', r') ->
  err r' = err r /\ resp r' = resp r
  /\ (forall m, values r = Some m -> values r' = Some m)
  /\ (forall (T2 : Type) (H2 : Target T2) (key2 : string) (v2 : T2) out,
        Value key2 v2 r' = Ret out -> out.2 = r').
Proof.
  intros Hv. destruct (extractValues_stable r) as [r1 [Hx [He [Hr [Hm Hx1]]]]].
  destruct (Value_inv key v r r1 _ Hx Hv) as [_ Hout]. simpl in Hout. subst r'.
  split; [exact He|]. split; [exact Hr|]. split; [exact Hm|].
  intros T2 H2 key2 v2 out Hv2.
  apply (Value_inv key2 v2 r1 r1 out Hx1 Hv2).
Qed.

(** Reading a key twice into the same target gives the same error, the same
    target and the same Result as reading it once. *)
Theorem Value_repeated {T : Type} `{Target T} (key : string) (v v' : T)
    (r r' : resultImpl) (e : error) :
  Value key v r = Ret (e, v', r') -> Value key v r' = Ret (e, v', r').
Proof.
  intros Hv. destruct (extractValues_stable r) as [r1 [Hx [_ [_ [_ Hx1]]]]].
  destruct (Value_inv key v r r1 _ Hx Hv) as [Hl Hout]. simpl in Hl, Hout. subst r'.
  rewrite (Value_unfold r1 r1 key v Hx1), Hl. reflexivity.
Qed.

(** [Value] panics exactly on a Result without response when it has to read
    the body for an error text: the key is not in the mapping, or its value
    does not marshal. *)
Theorem Value_panics_iff {T : Type} `{Target T} (key : string) (v : T) (r : resultImpl) :
  Value key v r = Panic <->
  resp r = None
  /\ (lookup_values key r = None
      \/ exists data e, lookup_values key r = Some data
                        /\ json_Marshal_value data = Err e).
Proof.
  destruct (resp r) as [rp|] eqn:Hr.
  - split; [|intros [Hn _]; discriminate].
    intros Hp. exfalso.
    destruct (extractValues_stable r) as [r1 [Hx [_ [Hr1 _]]]].
    rewrite Hr in Hr1.
    destruct (Value_lookup_returns r1 rp key v Hr1) as [x Hl].
    rewrite (Value_unfold r r1 key v Hx), Hl in Hp. discriminate.
  - rewrite (Value_unfold r r key v (extractValues_nil_response r Hr)).
    unfold Value_lookup. rewrite Hr.
    destruct (lookup_values key r) as [data|].
    + destruct (json_Marshal_value data) as [buff|e] eqn:Hm.
      * destruct (json_Unmarshal buff v) as [v' [e|]]; simpl;
          (split; [discriminate|]);
          intros [_ [Hn|[data' [e' [Hd He]]]]]; try discriminate;
          injection Hd as <-; rewrite Hm in He; discriminate.
      * simpl. split; [|reflexivity]. intros _. split; [reflexivity|].
        right. exists data, e. split; [reflexivity | exact Hm].
    + simpl. split; [|reflexivity]. intros _. split; [reflexivity|]. left. reflexivity.
Qed.

(** [Error()] is nil exactly when [OK()] is true, is an error exactly when
    [Fail()] is true, and panics exactly on a Result with neither error nor
    response. *)
Theorem Error_agrees_with_OK (r : resultImpl) :
  (Error r = Ret None <-> OK r = Ret true)
  /\ ((exists e, Error r = Ret (Some e)) <-> Fail r = Ret true)
  /\ (Error r = Panic <-> err r = None /\ resp r = None).
Proof.
  destruct (err r) as [e|] eqn:He.
  - rewrite (Error_local r e He).
    pose proof (OK_error r e He) as Hok.
    rewrite Hok, (proj1 (Fail_OK r false) Hok). simpl.
    split; [split; discriminate|].
    split; [split; [reflexivity | eauto]|].
    split; [discriminate | intros [Hn _]; discriminate].
  - destruct (resp r) as [rp|] eqn:Hr.
    + pose proof (OK_response r rp He Hr) as Hok. unfold StatusOK in Hok.
      destruct (resp_StatusCode rp =? 200) eqn:Hc.
      * rewrite (Error_OK r Hok), Hok, (proj1 (Fail_OK r true) Hok). simpl.
        split; [split; reflexivity|].
        split; [split; [intros [e' He']; discriminate | discriminate]|].
        split; [discriminate | intros [_ Hn]; discriminate].
      * apply Z.eqb_neq in Hc.
        rewrite (Error_status r rp He Hr Hc), Hok, (proj1 (Fail_OK r false) Hok).
        simpl. split; [split; discriminate|].
        split; [split; [reflexivity | eauto]|].
        split; [discriminate | intros [_ Hn]; discriminate].
    + pose proof (OK_no_error_no_response r He Hr) as Hok.
      assert (Herr : Error r = Panic) by (unfold Error; rewrite Hok; reflexivity).
      assert (Hfail : Fail r = Panic) by (unfold Fail; rewrite Hok; reflexivity).
      rewrite Herr, Hok, Hfail.
      split; [split; discriminate|].
      split; [split; [intros [e' He']; discriminate | discriminate]|].
      split; [intros _; split; reflexivity | reflexivity].
Qed.

End ResultInvariants.

(** * Further properties of the verbs *)

Section VerbInvariants.
Context `{GoLib} {P : Type} `{Payload P} `{Transport P}.

Lemma url_Parse_cases (s : string) :
  (exists e, url_Parse s = Err e) \/ (exists u, url_Parse s = Ok u).
Proof. destruct (url_Parse s) as [u|e]; eauto. Qed.

Lemma requestToMap_cases (request : P) :
  (exists e, requestToMap request = (None, Some e))
  \/ (exists params, requestToMap request = (Some params, None)).
Proof.
  unfold requestToMap. destruct (json_Marshal request) as [buff|e]; [|eauto].
  destruct (Unmarshal_map buff None) as [params [e|]]; eauto.
Qed.

(** A POST panics in the loop over the options, or fails at the URL check
    and sends nothing, or sends one request. *)
Lemma POST_cases (c : clientImpl) (path : string) (request : P)
    (options : list Option) (net : list (Sent P)) :
  (apply_options_nil options = Panic /\ POST c path request options net = Panic)
  \/ (apply_options_nil options = Ret tt
      /\ exists e, url_Parse (url c ++ path) = Err e
           /\ POST c path request options net = Ret (newResult (Some e) None, net))
  \/ (apply_options_nil options = Ret tt
      /\ exists u s, url_Parse (url c ++ path) = Ok u /\ sent_Method s = "POST"
           /\ POST c path request options net
              = Ret (newResult (RoundTrip net s).2 (RoundTrip net s).1,
                     (net ++ [s])%list)).
Proof.
  destruct (apply_options_nil_cases options) as [Ho|Ho].
  - right. destruct (url_Parse_cases (url c ++ path)) as [[e Hp]|[u Hp]].
    + left. split; [exact Ho|]. exists e. split; [exact Hp|].
      apply POST_URL_error; assumption.
    + right. split; [exact Ho|]. exists u. eexists. split; [exact Hp|].
      split; [|apply (POST_sent c path request options net u Ho Hp)]. reflexivity.
  - left. split; [exact Ho | apply POST_panics, Ho].
Qed.

(** A GET or DELETE fails at the query map, or panics in the loop over the
    options, or fails at the URL check, or sends one request. *)
Lemma GET_DELETE_cases (c : clientImpl) (path : string) (request : P)
    (options : list Option) (net : list (Sent P)) :
  (exists e, requestToMap request = (None, Some e)
     /\ GET c path request options net = Ret (newResult (Some e) None, net)
     /\ DELETE c path request options net = Ret (newResult (Some e) None, net))
  \/ (exists params, requestToMap request = (Some params, None)
      /\ ((apply_options_nil options = Panic
           /\ GET c path request options net = Panic
           /\ DELETE c path request options net = Panic)
          \/ (apply_options_nil options = Ret tt
              /\ exists e, url_Parse (url c ++ path) = Err e
                   /\ GET c path request options net
                      = Ret (newResult (Some e) None, net)
                   /\ DELETE c path request options net
                      = Ret (newResult (Some e) None, net))
          \/ (apply_options_nil options = Ret tt
              /\ exists u get del, url_Parse (url c ++ path) = Ok u
                   /\ sent_Method get = "GET" /\ sent_Method del = "DELETE"
                   /\ GET c path request options net
                      = Ret (newResult (RoundTrip net get).2 (RoundTrip net get).1,
                             (net ++ [get])%list)
                   /\ DELETE c path request options net
                      = Ret (newResult (RoundTrip net del).2 (RoundTrip net del).1,
                             (net ++ [del])%list)))).
Proof.
  destruct (requestToMap_cases request) as [[e Hq]|[params Hq]].
  - left. exists e. split; [exact Hq|].
    apply (GET_DELETE_query_error c path request options net e Hq).
  - right. exists params. split; [exact Hq|].
    assert (Hnone : (requestToMap request).2 = None) by (rewrite Hq; reflexivity).
    destruct (apply_options_nil_cases options) as [Ho|Ho].
    + right. destruct (url_Parse_cases (url c ++ path)) as [[e Hp]|[u Hp]].
      * left. split; [exact Ho|]. exists e. split; [exact Hp|].
        apply GET_DELETE_URL_error; assumption.
      * right. split; [exact Ho|]. exists u. do 2 eexists. split; [exact Hp|].
        split; [|split; [|split;
          [apply (GET_sent c path request options net u params Ho Hq Hp)
          |apply (DELETE_sent c path request options net u params Ho Hq Hp)]]];
          reflexivity.
    + left. split; [exact Ho|]. apply GET_DELETE_panic; assumption.
Qed.

(** A verb call fails before the request, and then returns the Result of the
    error with the network as it was, or sends one request with its method
    and returns the Result of the transport's answer, or panics in the loop
    over the options. *)
Lemma verb_shape (method : string) verb (c : clientImpl) (path : string) (request : P)
    (options : list Option) (net : list (Sent P)) :
  In (method, verb) Client_verbs ->
  (exists e, verb c path request options net = Ret (newResult (Some e) None, net))
  \/ (apply_options_nil options = Ret tt
      /\ exists s, sent_Method s = method
           /\ verb c path request options net
              = Ret (newResult (RoundTrip net s).2 (RoundTrip net s).1,
                     (net ++ [s])%list))
  \/ (apply_options_nil options = Panic /\ verb c path request options net = Panic).
Proof.
  intros Hin.
  destruct Hin as [Heq|[Heq|[Heq|[]]]]; injection Heq as <- <-.
  - destruct (POST_cases c path request options net)
      as [(Ho & Hv) | [(Ho & e & _ & Hv) | (Ho & u & s & _ & Hm & Hv)]]; eauto 7.
  - destruct (GET_DELETE_cases c path request options net)
      as [(e & _ & Hv & _) | (params & _ & [(Ho & Hv & _) | [(Ho & e & _ & Hv & _)
         | (Ho & u & get & del & _ & Hm & _ & Hv & _)]])]; eauto 7.
  - destruct (GET_DELETE_cases c path request options net)
      as [(e & _ & _ & Hv) | (params & _ & [(Ho & _ & Hv) | [(Ho & e & _ & _ & Hv)
         | (Ho & u & get & del & _ & _ & Hm & _ & Hv)]])]; eauto 7.
Qed.

Lemma grown_network (net : list (Sent P)) (s : Sent P) : (net ++ [s])%list <> net.
Proof.
  intros Heq. apply (f_equal length) in Heq. rewrite length_app in Heq.
  simpl in Heq. lia.
Qed.

Lemma POST_panics_iff (c : clientImpl) (path : string) (request : P)
    (options : list Option) (net : list (Sent P)) :
  POST c path request options net = Panic <-> apply_options_nil options = Panic.
Proof.
  destruct (POST_cases c path request options net)
    as [(Ho & Hv) | [(Ho & e & _ & Hv) | (Ho & u & s & _ & _ & Hv)]]; rewrite Hv, Ho;
    split; first [reflexivity | discriminate].
Qed.

Lemma GET_DELETE_panic_iff (c : clientImpl) (path : string) (request : P)
    (options : list Option) (net : list (Sent P)) :
  (GET c path request options net = Panic
   <-> (requestToMap request).2 = None /\ apply_options_nil options = Panic)
  /\ (DELETE c path request options net = Panic
      <-> (requestToMap request).2 = None /\ apply_options_nil options = Panic).
Proof.
  destruct (GET_DELETE_cases c path request options net)
    as [(e & Hq & Hg & Hd) | (params & Hq & [(Ho & Hg & Hd) | [(Ho & e & _ & Hg & Hd)
       | (Ho & u & get & del & _ & _ & _ & Hg & Hd)]])]; rewrite Hg, Hd, Hq; simpl;
    try rewrite Ho; split; split;
    first [discriminate | intros [? ?]; discriminate | split; reflexivity | reflexivity].
Qed.

Lemma POST_nothing_sent_iff (c : clientImpl) (path : string) (request : P)
    (options : list Option) (net : list (Sent P)) :
  (exists r, POST c path request options net = Ret (r, net))
  <-> apply_options_nil options = Ret tt
      /\ exists e, url_Parse (url c ++ path) = Err e.
Proof.
  destruct (POST_cases c path request options net)
    as [(Ho & Hv) | [(Ho & e & Hp & Hv) | (Ho & u & s & Hp & _ & Hv)]];
    rewrite Hv, Ho, ?Hp; split.
  - intros [r Hr]. discriminate.
  - intros [Hr _]. discriminate.
  - intros _. eauto.
  - intros _. eauto.
  - intros [r Hr]. injection Hr as _ Hr. destruct (grown_network net s Hr).
  - intros [_ [e He]]. discriminate.
Qed.

Lemma GET_DELETE_nothing_sent_iff (c : clientImpl) (path : string) (request : P)
    (options : list Option) (net : list (Sent P)) :
  ((exists r, GET c path request options net = Ret (r, net))
   <-> (exists e, (requestToMap request).2 = Some e)
       \/ (apply_options_nil options = Ret tt
           /\ exists e, url_Parse (url c ++ path) = Err e))
  /\ ((exists r, DELETE c path request options net = Ret (r, net))
      <-> (exists e, (requestToMap request).2 = Some e)
          \/ (apply_options_nil options = Ret tt
              /\ exists e, url_Parse (url c ++ path) = Err e)).
Proof.
  destruct (GET_DELETE_cases c path request options net)
    as [(e & Hq & Hg & Hd) | (params & Hq & [(Ho & Hg & Hd) | [(Ho & e & Hp & Hg & Hd)
       | (Ho & u & get & del & Hp & _ & _ & Hg & Hd)]])]; rewrite Hg, Hd, Hq; simpl.
  - split; split; eauto.
  - rewrite Ho. split; split;
      first [intros [r Hr]; discriminate
            | intros [[e He]|[Hr _]]; discriminate].
  - split; split; eauto.
  - rewrite Hp. split; split;
      first [intros [r Hr]; injection Hr as _ Hr; destruct (grown_network net _ Hr)
            | intros [[e He]|[_ [e He]]]; discriminate].
Qed.

(** When the transport never answers with neither a response nor an error:
    a verb call whose options loop returns gives a Result, and the Result of
    every verb call that returns has an error or a response, so that [OK()],
    [Fail()] and [Error()] return on it. *)
Theorem verb_Result_never_panics (method : string) verb (c : clientImpl) (path : string)
    (request : P) (options : list Option) (net : list (Sent P)) :
  In (method, verb) Client_verbs ->
  (forall sent s, RoundTrip sent s <> (None, None)) ->
  (apply_options_nil options = Ret tt ->
     exists r net', verb c path request options net = Ret (r, net'))
  /\ (forall r net', verb c path request options net = Ret (r, net') ->
        (err r <> None \/ resp r <> None)
        /\ (exists b, OK r = Ret b /\ Fail r = Ret (negb b))
        /\ (exists e, Error r = Ret e)).
Proof.
  intros Hin Hcontract. split.
  { intros Ho.
    destruct (verb_shape method verb c path request options net Hin)
      as [(e & Hv) | [(_ & s & _ & Hv) | (Hp & _)]]; [eauto | eauto |].
    rewrite Ho in Hp. discriminate. }
  intros r net' Hret.
  assert (Hsome : err r <> None \/ resp r <> None).
  { destruct (verb_shape method verb c path request options net Hin)
      as [(e & Hv) | [(_ & s & _ & Hv) | (_ & Hv)]]; rewrite Hv in Hret;
      [| |discriminate]; injection Hret as <- <-; simpl.
    - left. discriminate.
    - specialize (Hcontract net s). destruct (RoundTrip net s) as [[rp|] [e|]]; simpl;
        try (left; discriminate); try (right; discriminate).
      exfalso. apply Hcontract. reflexivity. }
  split; [exact Hsome|].
  assert (Hok : exists b, OK r = Ret b).
  { destruct (err r) as [e|] eqn:He.
    - exists false. apply (OK_error r e He).
    - destruct (resp r) as [rp|] eqn:Hr.
      + eexists. apply (OK_response r rp He Hr).
      + exfalso. destruct Hsome as [Hs|Hs]; apply Hs; reflexivity. }
  destruct Hok as [b Hok]. split.
  - exists b. split; [exact Hok | apply (Fail_OK r b), Hok].
  - unfold Error. rewrite Hok. simpl. destruct b; [eauto|].
    destruct (err r) as [e|] eqn:He; [eauto|].
    destruct (resp r) as [rp|] eqn:Hr; [eauto|].
    exfalso. destruct Hsome as [Hs|Hs]; apply Hs; reflexivity.
Qed.

(** A verb call hands at most one request to the transport and keeps the
    requests handed over before: it panics in the loop over the options, or
    returns the Result of a local error, without response, with nothing
    sent, or appends one request with the verb's method and returns the
    Result that holds exactly the transport's error and response, with no
    mapping yet. POST panics exactly when an option panics on the nil raw
    request, GET and DELETE exactly when the query map is built and an
    option panics. POST returns with nothing sent exactly when the options
    return and the URL does not parse; GET and DELETE exactly when the query
    map fails, or the options return and the URL fails. *)
Theorem verb_sends_at_most_once (method : string) verb (c : clientImpl) (path : string)
    (request : P) (options : list Option) (net : list (Sent P)) :
  In (method, verb) Client_verbs ->
  ((exists e, verb c path request options net = Ret (newResult (Some e) None, net))
   \/ (exists s r, verb c path request options net = Ret (r, (net ++ [s])%list)
         /\ sent_Method s = method
         /\ err r = (RoundTrip net s).2
         /\ resp r = (RoundTrip net s).1
         /\ values r = None)
   \/ verb c path request options net = Panic)
  /\ (POST c path request options net = Panic <-> apply_options_nil options = Panic)
  /\ (GET c path request options net = Panic
      <-> (requestToMap request).2 = None /\ apply_options_nil options = Panic)
  /\ (DELETE c path request options net = Panic
      <-> (requestToMap request).2 = None /\ apply_options_nil options = Panic)
  /\ ((exists r, POST c path request options net = Ret (r, net))
      <-> apply_options_nil options = Ret tt
          /\ exists e, url_Parse (url c ++ path) = Err e)
  /\ ((exists r, GET c path request options net = Ret (r, net))
      <-> (exists e, (requestToMap request).2 = Some e)
          \/ (apply_options_nil options = Ret tt
              /\ exists e, url_Parse (url c ++ path) = Err e))
  /\ ((exists r, DELETE c path request options net = Ret (r, net))
      <-> (exists e, (requestToMap request).2 = Some e)
          \/ (apply_options_nil options = Ret tt
              /\ exists e, url_Parse (url c ++ path) = Err e)).
Proof.
  intros Hin. split.
  { destruct (verb_shape method verb c path request options net Hin)
      as [(e & Hv) | [(_ & s & Hm & Hv) | (_ & Hv)]];
      [left; eauto | | right; right; exact Hv].
    right. left. exists s. eexists. split; [exact Hv|].
    repeat split; try reflexivity. exact Hm. }
  split; [apply POST_panics_iff|].
  split; [apply GET_DELETE_panic_iff|].
  split; [apply GET_DELETE_panic_iff|].
  split; [apply POST_nothing_sent_iff|].
  split; apply GET_DELETE_nothing_sent_iff.
Qed.

(** An error of the transport reaches the caller as it is: when a verb call
    returns having handed the request [s] to the transport, and the transport
    answers [s] with an error, [Error()] of the Result is that error,
    [Fail()] is true and [Response()] is what came with it. *)
Theorem transport_error_verbatim (method : string) verb (c : clientImpl) (path : string)
    (request : P) (options : list Option) (net : list (Sent P)) (s : Sent P)
    (r : resultImpl) (rsp : option resty_Response) (e : string) :
  In (method, verb) Client_verbs ->
  verb c path request options net = Ret (r, (net ++ [s])%list) ->
  RoundTrip net s = (rsp, Some e) ->
  Error r = Ret (Some e)
  /\ Fail r = Ret true
  /\ OK r = Ret false
  /\ Response r = rsp.
Proof.
  intros Hin Hsent Hrt.
  destruct (verb_shape method verb c path request options net Hin)
    as [(e' & Hv) | [(_ & s' & _ & Hv) | (_ & Hv)]]; rewrite Hv in Hsent;
    [| |discriminate];
    injection Hsent as <- Hsent.
  - destruct (grown_network net s). symmetry. exact Hsent.
  - apply app_inv_head in Hsent. injection Hsent as ->. rewrite Hrt. simpl.
    assert (Hok : OK (newResult (Some e) rsp) = Ret false).
    { apply (OK_error _ e). reflexivity. }
    split; [apply Error_local; reflexivity|].
    split; [apply (Fail_OK _ false), Hok|]. split; [exact Hok | reflexivity].
Qed.

(** No option changes a request: a verb call whose options all return on
    the nil raw request is the same call without options, with the same
    Result and the same request handed to the transport, which carries no
    raw request. *)
Theorem options_without_effect (method : string) verb (c : clientImpl) (path : string)
    (request : P) (options : list Option) (net : list (Sent P)) :
  In (method, verb) Client_verbs ->
  apply_options_nil options = Ret tt ->
  verb c path request options net = verb c path request [] net
  /\ (forall r s, verb c path request options net = Ret (r, (net ++ [s])%list) ->
        RawRequest (sent_Request s) = None).
Proof.
  intros Hin Ho. split.
  - apply (call_options_nil options) in Ho.
    destruct Hin as [Heq|[Heq|[Heq|[]]]]; injection Heq as <- <-.
    + unfold POST. simpl. rewrite Ho. reflexivity.
    + unfold GET. destruct (requestToMap request) as [params [e|]]; [reflexivity|].
      simpl. rewrite Ho. reflexivity.
    + unfold DELETE. destruct (requestToMap request) as [params [e|]]; [reflexivity|].
      simpl. rewrite Ho. reflexivity.
  - intros r s Hv.
    destruct Hin as [Heq|[Heq|[Heq|[]]]]; injection Heq as <- <-.
    + destruct (POST_cases c path request options net)
        as [(_ & Hp) | [(_ & e & _ & Hp) | (_ & u & s' & Hu & _ & Hp)]];
        rewrite Hp in Hv; [discriminate| |].
      * injection Hv as _ Hv. destruct (grown_network net s). symmetry. exact Hv.
      * rewrite (POST_sent c path request options net u Ho Hu) in Hp.
        rewrite <- Hp in Hv. injection Hv as _ Hv. apply app_inv_head in Hv.
        injection Hv as <-. reflexivity.
    + destruct (GET_DELETE_cases c path request options net)
        as [(e & _ & Hp & _) | (params & Hq & [(_ & Hp & _) | [(_ & e & _ & Hp & _)
           | (_ & u & get & del & Hu & _ & _ & Hp & _)]])];
        rewrite Hp in Hv; [| discriminate | |].
      * injection Hv as _ Hv. destruct (grown_network net s). symmetry. exact Hv.
      * injection Hv as _ Hv. destruct (grown_network net s). symmetry. exact Hv.
      * rewrite (GET_sent c path request options net u params Ho Hq Hu) in Hp.
        rewrite <- Hp in Hv. injection Hv as _ Hv. apply app_inv_head in Hv.
        injection Hv as <-. reflexivity.
    + destruct (GET_DELETE_cases c path request options net)
        as [(e & _ & _ & Hp) | (params & Hq & [(_ & _ & Hp) | [(_ & e & _ & _ & Hp)
           | (_ & u & get & del & Hu & _ & _ & _ & Hp)]])];
        rewrite Hp in Hv; [| discriminate | |].
      * injection Hv as _ Hv. destruct (grown_network net s). symmetry. exact Hv.
      * injection Hv as _ Hv. destruct (grown_network net s). symmetry. exact Hv.
      * rewrite (DELETE_sent c path request options net u params Ho Hq Hu) in Hp.
        rewrite <- Hp in Hv. injection Hv as _ Hv. apply app_inv_head in Hv.
        injection Hv as <-. reflexivity.
Qed.

(** The query map by the kind of the payload's JSON: null gives the empty
    map, an object whose decoding records no error gives its rendered
    members, and invalid JSON, an array, a string, a number or a bool give
    the decoder's error. *)
Theorem requestToMap_by_kind (request : P) (buff : string) :
  json_Marshal request = Ok buff ->
  (json_decode buff = Decoded JNull None -> requestToMap request = (Some ∅, None))
  /\ (forall members,
        json_decode buff = Decoded (JObj members) None ->
        requestToMap request = (Some (Sprintf_v <$> store_members members ∅), None))
  /\ (forall members e,
        json_decode buff = Decoded (JObj members) (Some e) ->
        requestToMap request = (None, Some e))
  /\ (forall e, json_decode buff = Invalid e -> requestToMap request = (None, Some e))
  /\ (forall v conv,
        json_decode buff = Decoded v conv -> v <> JNull ->
        (forall members, v <> JObj members) ->
        requestToMap request
        = (None, Some ("json: cannot unmarshal " ++ kind_name v
                       ++ " into Go value of type map[string]interface {}"))).
Proof.
  intros Hm. split; [|split; [|split; [|split]]].
  - intros Hd. rewrite (requestToMap_ok request buff None Hm).
    + reflexivity.
    + unfold Unmarshal_map. rewrite Hd. reflexivity.
  - intros members Hd.
    rewrite (requestToMap_ok request buff (Some (store_members members ∅)) Hm).
    + simpl. rewrite (range_render_any_order _ _ (Permutation_refl _)). reflexivity.
    + unfold Unmarshal_map. rewrite Hd. reflexivity.
  - intros members e Hd. apply (requestToMap_unmarshal_error request buff e Hm).
    unfold Unmarshal_map. rewrite Hd. reflexivity.
  - intros e Hd. apply (requestToMap_unmarshal_error request buff e Hm).
    unfold Unmarshal_map. rewrite Hd. reflexivity.
  - intros v conv Hd Hnull Hobj. apply (requestToMap_unmarshal_error request buff _ Hm).
    unfold Unmarshal_map. rewrite Hd.
    destruct v; try reflexivity; exfalso; [apply Hnull | apply (Hobj members)];
      reflexivity.
Qed.

End VerbInvariants.

(** * Further properties of the options *)

Lemma apply_options_WithJWToken (tokens : list string) (raw : http_Request) :
  Header (apply_options (map WithJWToken tokens) raw) !! "Authorization"
  = match tokens with
    | [] => Header raw !! "Authorization"
    | _ => Some (default [] (Header raw !! "Authorization")
                 ++ map (fun t => "Bearer " +:+ t) tokens)%list
    end.
Proof.
  revert raw. induction tokens as [|t ts IH]; intros raw; [reflexivity|].
  change (apply_options (map WithJWToken (t :: ts)) raw)
    with (apply_options (map WithJWToken ts) (WithJWToken t raw)).
  rewrite IH, WithJWToken_Authorization. destruct ts as [|t' ts]; [reflexivity|].
  simpl. rewrite <- app_assoc. reflexivity.
Qed.

Lemma apply_options_WithJWToken_other (tokens : list string) (raw : http_Request)
    (key : string) :
  key <> "Authorization" ->
  Header (apply_options (map WithJWToken tokens) raw) !! key = Header raw !! key.
Proof.
  intros Hne. revert raw. induction tokens as [|t ts IH]; intros raw; [reflexivity|].
  change (apply_options (map WithJWToken (t :: ts)) raw)
    with (apply_options (map WithJWToken ts) (WithJWToken t raw)).
  rewrite IH. apply WithJWToken_other, Hne.
Qed.

(** Any number of [WithJWToken] options append their tokens to the
    Authorization header in call order and leave every other header alone;
    on a request that had no Authorization header, [Header.Get] returns the
    first token's value. *)
Theorem WithJWToken_tokens_accumulate (t : string) (ts : list string)
    (raw : http_Request) :
  Header (apply_options (map WithJWToken (t :: ts)) raw) !! "Authorization"
  = Some (default [] (Header raw !! "Authorization")
          ++ map (fun t => "Bearer " +:+ t) (t :: ts))%list
  /\ (forall key, key <> "Authorization" ->
        Header (apply_options (map WithJWToken (t :: ts)) raw) !! key
        = Header raw !! key)
  /\ (Header raw !! "Authorization" = None ->
        Header_Get "Authorization"
          (Header (apply_options (map WithJWToken (t :: ts)) raw))
        = "Bearer " ++ t).
Proof.
  split; [apply (apply_options_WithJWToken (t :: ts))|].
  split; [intros key; apply apply_options_WithJWToken_other|].
  intros Hnone. unfold Header_Get.
  rewrite (apply_options_WithJWToken (t :: ts)), Hnone. reflexivity.
Qed.

(** * Further properties of the variant of client.go *)

Section HandleResult.
Context `{GoLib} {fmts : FmtString} {T : Type} `{Target T}.

(** A decoding into a fresh map that records no error and has the key comes
    from an object. *)
Lemma Unmarshal_map_lookup_inv (body : string) result (name : string) data :
  Unmarshal_map body (Some ∅) = (result, None) ->
  result ≫= (fun m => m !! name) = Some data ->
  exists members, json_decode body = Decoded (JObj members) None
                  /\ result = Some (store_members members ∅).
Proof.
  unfold Unmarshal_map. intros Hu Hl.
  destruct (json_decode body) as [e|v conv]; [discriminate|].
  destruct v; try discriminate.
  - injection Hu as <- ->. discriminate.
  - injection Hu as <- ->. exists members. split; reflexivity.
Qed.

(** [handleResult] returns nil only for a response with status 200 whose
    body is a JSON object that holds the name, decoded without error, and
    whose member unmarshals into the target; the target it leaves is that
    decoding's. *)
Theorem handleResult_success (rsp : option resty_Response) (name : string) (obj obj' : T) :
  ClientGo.handleResult rsp name obj = Ret (None, obj') ->
  exists rp members data buff,
    rsp = Some rp /\ resp_StatusCode rp = 200
    /\ json_decode (resp_Body rp) = Decoded (JObj members) None
    /\ store_members members ∅ !! name = Some data
    /\ json_Marshal_value data = Ok buff
    /\ json_Unmarshal buff obj = (obj', None).
Proof.
  unfold ClientGo.handleResult. destruct rsp as [rp|]; [|discriminate].
  outcome_simpl.
  destruct (Unmarshal_map (resp_Body rp) (Some ∅)) as [result [e|]] eqn:Hu;
    [discriminate|].
  unfold StatusOK. destruct (resp_StatusCode rp =? 200) eqn:Hc; simpl; [|discriminate].
  destruct result as [m|]; simpl; [|discriminate].
  destruct (m !! name) as [data|] eqn:Hl; [|discriminate].
  destruct (json_Marshal_value data) as [buff|e] eqn:Hm; [|discriminate].
  destruct (json_Unmarshal buff obj) as [obj'' [e|]] eqn:Hj; [discriminate|].
  intros Heq. injection Heq as <-.
  destruct (Unmarshal_map_lookup_inv _ (Some m) name data Hu Hl) as [members [Hd Hs]].
  injection Hs as ->.
  exists rp, members, data, buff. apply Z.eqb_eq in Hc.
  repeat split; assumption.
Qed.

(** [handleResult] panics exactly on a nil response. *)
Theorem handleResult_panics_iff (rsp : option resty_Response) (name : string) (obj : T) :
  ClientGo.handleResult rsp name obj = Panic <-> rsp = None.
Proof.
  unfold ClientGo.handleResult. destruct rsp as [rp|]; [|split; reflexivity].
  outcome_simpl. split; [|discriminate].
  destruct (Unmarshal_map (resp_Body rp) (Some ∅)) as [result [e|]]; [discriminate|].
  destruct (negb (resp_StatusCode rp =? StatusOK)); [discriminate|].
  destruct result as [m|]; simpl; [|discriminate].
  destruct (m !! name) as [data|]; [|discriminate].
  destruct (json_Marshal_value data) as [buff|e]; [|discriminate].
  destruct (json_Unmarshal buff obj) as [obj'' [e|]]; discriminate.
Qed.

(** On a response with status 200 whose body decodes without error,
    [handleResult] of client.go and the lazy [Value] of the other variant
    give the same error and the same target. *)
Theorem handleResult_agrees_with_Value (rp : resty_Response) (e0 : error)
    (name : string) (obj : T) :
  resp_StatusCode rp = 200 ->
  (Unmarshal_map (resp_Body rp) (Some ∅)).2 = None ->
  Value name obj (newResult e0 (Some rp))
  = (x ← ClientGo.handleResult (Some rp) name obj;
     mret (x.1, x.2,
           set_values (Unmarshal_map (resp_Body rp) (Some ∅)).1
             (newResult e0 (Some rp)))).
Proof.
  intros Hc Hu.
  rewrite (Value_unfold _ _ name obj
             (extractValues_response (newResult e0 (Some rp)) rp eq_refl eq_refl)).
  unfold ClientGo.handleResult, Value_lookup, lookup_values. outcome_simpl.
  destruct (Unmarshal_map (resp_Body rp) (Some ∅)) as [result e] eqn:Hm.
  simpl in Hu. subst e. simpl. rewrite Hc. simpl.
  destruct result as [m|]; simpl; [|reflexivity].
  destruct (m !! name) as [data|]; [|reflexivity].
  destruct (json_Marshal_value data) as [buff|e]; [|reflexivity].
  destruct (json_Unmarshal buff obj) as [obj'' [e|]]; reflexivity.
Qed.

(** The two [extractValues] agree wherever a response or a mapping exists;
    on a Result with neither, the one of client.go panics where the other
    returns the Result as it is. *)
Theorem extractValues_variants (r : resultImpl) :
  (resp r <> None \/ values r <> None -> ClientGo.extractValues r = extractValues r)
  /\ (resp r = None -> values r = None ->
      ClientGo.extractValues r = Panic /\ extractValues r = Ret r).
Proof.
  unfold ClientGo.extractValues, extractValues.
  destruct (values r) as [m|]; destruct (resp r) as [rp|]; split;
    try reflexivity; try discriminate; try (intros _; reflexivity).
  - intros [Hn|Hn]; exfalso; apply Hn; reflexivity.
  - intros _ _. split; reflexivity.
Qed.

End HandleResult.

(** * Further properties of the URL check *)

Lemma clean_step_solid (rooted : bool) (out : list string) (elem : string) :
  no_slash elem = true ->
  Forall (fun e => solid_elem e = true) out ->
  Forall (fun e => solid_elem e = true) (clean_step rooted out elem).
Proof.
  intros Hns Hout. unfold clean_step.
  destruct (String.eqb elem "") eqn:H0; [exact Hout|].
  assert (Hsolid : solid_elem elem = true).
  { unfold solid_elem. rewrite H0, Hns. reflexivity. }
  destruct (String.eqb elem "."); [exact Hout|]. simpl.
  destruct (String.eqb elem "..").
  - destruct out as [|top rest].
    + destruct rooted; [constructor | constructor; [exact Hsolid | constructor]].
    + destruct (String.eqb top "..").
      * constructor; [exact Hsolid | exact Hout].
      * inversion Hout; assumption.
  - constructor; [exact Hsolid | exact Hout].
Qed.

Lemma clean_elems_solid (path : string) :
  Forall (fun e => solid_elem e = true) (clean_elems path).
Proof.
  unfold clean_elems. apply Forall_rev.
  assert (Hgen : forall elems out,
             Forall (fun e => no_slash e = true) elems ->
             Forall (fun e => solid_elem e = true) out ->
             Forall (fun e => solid_elem e = true)
               (fold_left (clean_step (is_rooted path)) elems out)).
  { induction elems as [|elem elems IH]; intros out Hel Hout; simpl; [exact Hout|].
    inversion Hel; subst. apply IH; [assumption|].
    apply clean_step_solid; assumption. }
  apply Hgen; [apply split_slash_no_slash | constructor].
Qed.

Lemma ends_with_slash_app (a b : string) :
  b <> "" -> ends_with_slash (a ++ b) = ends_with_slash b.
Proof.
  intros Hb. induction a as [|c a IH]; [reflexivity|].
  change (String c a ++ b) with (String c (a ++ b)).
  destruct (a ++ b) as [|c' rest] eqn:Hab.
  - destruct a; simpl in Hab; [contradiction | discriminate].
  - exact IH.
Qed.

Lemma solid_elem_end (e : string) :
  solid_elem e = true -> e <> "" /\ ends_with_slash e = false.
Proof.
  unfold solid_elem. intros Hs. apply andb_true_iff in Hs as [Hne Hns].
  split; [intros ->; discriminate|]. clear Hne.
  induction e as [|c e IH]; [reflexivity|].
  simpl in Hns. apply andb_true_iff in Hns as [Hc Hns].
  destruct e as [|c' e]; [simpl; apply negb_true_iff, Hc | apply IH, Hns].
Qed.

Lemma join_slash_solid (e : string) (elems : list string) :
  Forall (fun e => solid_elem e = true) (e :: elems) ->
  join_slash (e :: elems) <> "" /\ ends_with_slash (join_slash (e :: elems)) = false.
Proof.
  revert e. induction elems as [|e' elems IH]; intros e Hall.
  - inversion Hall; subst. apply solid_elem_end. assumption.
  - inversion Hall as [|? ? He Hrest]; subst.
    destruct (IH e' Hrest) as [Hne Hend].
    destruct (solid_elem_end e He) as [Hene _].
    change (join_slash (e :: e' :: elems)) with (e ++ "/" ++ join_slash (e' :: elems)).
    split.
    + destruct e; [contradiction | discriminate].
    + rewrite ends_with_slash_app; [|discriminate].
      change ("/" ++ join_slash (e' :: elems))
        with (String "/" (join_slash (e' :: elems))).
      destruct (join_slash (e' :: elems)); [contradiction | exact Hend].
Qed.

(** What Clean returns is never empty and never ends in a slash, unless it
    is the root. *)
Lemma Clean_shape (path : string) :
  filepath_Clean path <> ""
  /\ (filepath_Clean path = "/" \/ ends_with_slash (filepath_Clean path) = false).
Proof.
  unfold filepath_Clean. pose proof (clean_elems_solid path) as Hall.
  destruct (is_rooted path).
  - split; [discriminate|].
    destruct (clean_elems path) as [|e elems]; [left; reflexivity | right].
    destruct (join_slash_solid e elems Hall) as [Hne Hend].
    change ("/" ++ join_slash (e :: elems)) with (String "/" (join_slash (e :: elems))).
    destruct (join_slash (e :: elems)); [contradiction | exact Hend].
  - destruct (clean_elems path) as [|e elems].
    + split; [discriminate | right; reflexivity].
    + destruct (join_slash_solid e elems Hall) as [Hne Hend].
      split; [exact Hne | right; exact Hend].
Qed.

Section URLCheck.
Context `{GoLib}.

(** [checkURL] changes nothing of a parsed URL but its path, and the path it
    renders is never empty (an empty path becomes a dot), never ends in a
    slash unless it is the root, and is rooted when the parsed one was. *)
Theorem checkURL_path (s : string) (u : URL) :
  url_Parse s = Ok u ->
  exists u', checkURL s = (URL_String u', None)
    /\ Path u' = filepath_Clean (Path u)
    /\ (Scheme u', Opaque u', Host u', RawPath u', RawQuery u', Fragment u')
       = (Scheme u, Opaque u, Host u, RawPath u, RawQuery u, Fragment u)
    /\ Path u' <> ""
    /\ (Path u' = "/" \/ ends_with_slash (Path u') = false)
    /\ (Path u = "" -> Path u' = ".")
    /\ (is_rooted (Path u) = true -> is_rooted (Path u') = true).
Proof.
  intros Hp. exists (set_Path (filepath_Clean (Path u)) u).
  split; [apply checkURL_ok, Hp|]. split; [reflexivity|]. split; [reflexivity|].
  destruct (Clean_shape (Path u)) as [Hne Hend].
  split; [exact Hne|]. split; [exact Hend|]. split.
  - intros Hempty. simpl. rewrite Hempty. reflexivity.
  - intros Hroot. simpl. unfold filepath_Clean. rewrite Hroot. reflexivity.
Qed.

End URLCheck.

(** * The package on concrete inputs *)
Module Examples.
Import Demo.
#[local] Existing Instance lib.
#[local] Existing Instance item_target.
#[local] Existing Instance listing_payload.
#[local] Existing Instance channel_payload.
#[local] Existing Instance network.
#[local] Existing Instance channel_network.

(** C1 at the body [{"result":{"id":42}}]: [Value("result", &target)] sets
    [target.id] to 42 and returns nil; [Value("missing", &target)] returns
    the unknown-field error; both leave the extracted mapping behind. *)
Lemma Value_contract_witness :
  Value "result" {| id := 0 |} ok_result
  = Ret (None, {| id := 42 |}, ok_result_extracted)
  /\ Value "missing" {| id := 0 |} ok_result
     = Ret (Some ("unknown return value missing" ++ nl ++ js "{'result':{'id':42}}"),
            {| id := 0 |}, ok_result_extracted)
  /\ Values ok_result = None
  /\ Values ok_result_extracted = Some {[ "result" := JObj [("id", JNum 42)] ]}.
Proof.
  pose proof (fun key =>
    Value_contract ok_result ok_response [("result", JObj [("id", JNum 42)])] None
      key {| id := 0 |} eq_refl eq_refl eq_refl) as Hc.
  split; [|split; [|split; reflexivity]].
  - destruct (Hc "result") as [Hpresent _].
    apply (Hpresent (JObj [("id", JNum 42)]) (js "{'id':42}") {| id := 42 |});
      reflexivity.
  - destruct (Hc "missing") as [_ [Habsent _]]. apply Habsent. reflexivity.
Defined.

(** C2 at status 201 with no error: [OK()] is false and [Fail()] is true. *)
Lemma OK_Fail_contract_witness :
  OK (newResult None (Some created_response)) = Ret false
  /\ Fail (newResult None (Some created_response)) = Ret true
  /\ OK ok_result = Ret true.
Proof.
  destruct (OK_Fail_contract (newResult None (Some created_response)))
    as [_ [Hstatus _]].
  destruct (Hstatus created_response eq_refl eq_refl) as [Hok Hfail].
  - discriminate.
  - split; [exact Hok|]. split; [exact Hfail|].
    apply (proj1 (OK_Fail_contract ok_result)).
    split; [reflexivity|]. exists ok_response. split; reflexivity.
Defined.

(** A POST to a base URL that does not parse, and a GET whose payload does
    not marshal, whatever its options: the Result carries the error, and
    nothing was sent. *)
Lemma preflight_failure_returns_witness :
  POST (New "://host") "/x" bob [] []
  = Ret (newResult (Some ("parse " ++ quoted "://host/x" ++ ": missing protocol scheme"))
           None, [])
  /\ GET (New "http://host") "/x" tt [WithJWToken "t"] []
     = Ret (newResult (Some "json: unsupported type: chan int") None, [])
  /\ Fail (newResult (Some "json: unsupported type: chan int") None) = Ret true
  /\ Error (newResult (Some "json: unsupported type: chan int") None)
     = Ret (Some "json: unsupported type: chan int")
  /\ Response (newResult (Some "json: unsupported type: chan int") None) = None.
Proof.
  split.
  - apply (preflight_failure_returns (New "://host") "/x" bob [] []); reflexivity.
  - destruct (preflight_failure_returns (New "http://host") "/x" tt [WithJWToken "t"] []
                "json: unsupported type: chan int")
      as [[Hfail [Herr Hresp]] [_ [Hmarshal _]]].
    split; [apply Hmarshal; reflexivity|].
    split; [exact Hfail|]. split; [exact Herr | exact Hresp].
Defined.

(** C3 at a base URL that does not parse and a token option: the call
    panics, where the same call without the option returns the Result of the
    parse error. *)
Lemma preflight_failure_unreached_witness :
  POST (New "://host") "/x" bob [WithJWToken "t"] [] = Panic
  /\ POST (New "://host") "/x" bob [] []
     = Ret (newResult (Some ("parse " ++ quoted "://host/x" ++ ": missing protocol scheme"))
              None, [])
  /\ GET (New "://host") "/x" bob [WithJWToken "t"] [] = Panic
  /\ DELETE (New "://host") "/x" bob [WithJWToken "t"] [] = Panic.
Proof.
  destruct (preflight_failure_unreached (New "://host") "/x" bob "t" [WithJWToken "t"] []
              ("parse " ++ quoted "://host/x" ++ ": missing protocol scheme"))
    as [[Hpanic Hreturn] Hquery].
  - left. reflexivity.
  - reflexivity.
  - destruct (Hquery eq_refl) as [[Hget _] [Hdel _]].
    split; [exact Hpanic|]. split; [exact Hreturn|]. split; [exact Hget | exact Hdel].
Defined.

(** C4 at base [http://host/api/] and path [/v1//users]: the variant with
    [checkURL] sends to [http://host/api/v1/users]. *)
Lemma target_URL_witness :
  sent_URLs (POST (New "http://host/api/") "/v1//users" bob [] [])
  = Ret ["http://host/api/v1/users"]
  /\ filepath_Clean "/api//v1//users" = "/api/v1/users".
Proof.
  destruct (target_URL (New "http://host/api/") "/v1//users" bob [] [])
    as [Hnew _].
  destruct (Hnew {| Scheme := "http"; Opaque := ""; Host := "host";
                    Path := "/api//v1//users"; RawPath := ""; RawQuery := "";
                    Fragment := "" |} eq_refl) as [_ [Hsend _]].
  destruct (Hsend eq_refl) as [[s [Hpost Hurl]] _].
  split; [|reflexivity]. rewrite Hpost. unfold sent_URLs. outcome_simpl.
  rewrite Hurl. reflexivity.
Defined.

(** C4, the claim refuted: the POST of client.go sends to the unparsed
    concatenation with a slash, where every slash of base and path stands. *)
Lemma ClientGo_POST_sends_raw_URL :
  sent_URLs (ClientGo.POST (New "http://host/api/") "/v1//users" bob [] [])
  = Ret ["http://host/api///v1//users"]
  /\ sent_URLs (ClientGo.POST (New "http://host/api/") "/v1//users" bob [] [])
     <> Ret ["http://host/api/v1/users"].
Proof. split; [reflexivity | intros Heq; vm_compute in Heq; discriminate]. Qed.

(** C5 at the payload [{"name":"bob","page":2}]: the query map renders the
    number as text. *)
Lemma query_map_conversion_witness :
  requestToMap bob = (Some {[ "name" := "bob"; "page" := "2" ]}, None)
  /\ range_render [("page", JNum 2); ("name", JStr "bob")] ∅
     = range_render [("name", JStr "bob"); ("page", JNum 2)] ∅.
Proof.
  destruct (query_map_conversion (New "http://host") "/users" bob [] [])
    as [Hnew _].
  destruct (Hnew (js "{'name':'bob','page':2}")
              (Some {[ "name" := JStr "bob"; "page" := JNum 2 ]})
              eq_refl eq_refl) as [Hq [_ [Horder _]]].
  split; [exact Hq|].
  rewrite (Horder [("page", JNum 2); ("name", JStr "bob")]);
    [rewrite (Horder [("name", JStr "bob"); ("page", JNum 2)]); [reflexivity|] |].
  - vm_compute. apply Permutation_refl.
  - vm_compute. apply perm_swap.
Defined.

(** C5, the claim refuted: the GET of client.go, given a payload with a
    number, fails before any request instead of rendering the number, which
    [requestToMap] does render. *)
Lemma ClientGo_GET_rejects_number :
  (exists e, ClientGo.GET (New "http://host") "/users" bob [] []
             = Ret (newResult (Some e) None, []))
  /\ requestToMap bob = (Some {[ "name" := "bob"; "page" := "2" ]}, None).
Proof. split; [eexists|]; reflexivity. Qed.

(** C6 at a base URL that parses and a payload that converts: with the one
    option [WithJWToken("t")] each verb panics. *)
Lemma options_run_on_nil_request_witness :
  POST (New "http://host") "/users" bob [WithJWToken "t"] [] = Panic
  /\ GET (New "http://host") "/users" bob [WithJWToken "t"] [] = Panic
  /\ DELETE (New "http://host") "/users" bob [WithJWToken "t"] [] = Panic.
Proof.
  destruct (options_run_on_nil_request (New "http://host") "/users" bob "t"
              [WithJWToken "t"] [] (or_introl eq_refl))
    as [_ [_ [_ [Hpost Hquery]]]].
  split; [exact Hpost | apply Hquery; reflexivity].
Defined.

(** C7 at the Result of a URL that did not parse: [Value] panics. *)
Lemma Value_after_preflight_failure_panics :
  POST (New "://host") "/x" bob [] []
  = Ret (newResult (Some ("parse " ++ quoted "://host/x" ++ ": missing protocol scheme"))
           None, [])
  /\ Value "result" {| id := 0 |}
       (newResult (H := lib)
          (Some ("parse " ++ quoted "://host/x" ++ ": missing protocol scheme")) None)
     = Panic.
Proof. split; [reflexivity | apply Value_nil_response_panics]. Defined.

(** A value of the wrong shape: the member is an array, the target a struct. *)
Lemma Value_mismatch_witness :
  Value "result" {| id := 0 |}
    (set_values (Some {[ "result" := JArr [JNum 1] ]})
       (newResult None (Some array_response)))
  = Ret (Some ("unmarshal result(result) err "
               ++ "json: cannot unmarshal array into Go value of type restclient.item"
               ++ nl ++ "[1]"),
         {| id := 0 |},
         set_values (Some {[ "result" := JArr [JNum 1] ]})
           (newResult None (Some array_response))).
Proof.
  apply (Value_mismatch (H := lib) _ {[ "result" := JArr [JNum 1] ]} "result" _ _
           (JArr [JNum 1] : jvalue (float64 (GoLib := lib))) "[1]"); reflexivity.
Defined.

(** C8 on the three bodies: an object, null, and an array. *)
Lemma Values_reads_the_cache_witness :
  Values ok_result = None
  /\ ((extractValues (newResult None (Some null_response))) ≫= (fun r => Ret (Values r)))
     = Ret None
  /\ ((extractValues (newResult None (Some array_response))) ≫= (fun r => Ret (Values r)))
     = Ret (Some ∅)
  /\ ((extractValues ok_result) ≫= (fun r => Ret (Values r)))
     = Ret (Some {[ "result" := JObj [("id", JNum 42)] ]}).
Proof.
  destruct (Values_reads_the_cache (H := lib)) as [_ [Hfresh [_ [Hext _]]]].
  split; [apply Hfresh|]. split; [|split].
  - destruct (Hext (newResult None (Some null_response)) null_response eq_refl eq_refl)
      as [r' [Hx [_ [Hnull _]]]].
    rewrite Hx. simpl. rewrite (Hnull None); reflexivity.
  - destruct (Hext (newResult None (Some array_response)) array_response
                eq_refl eq_refl) as [r' [Hx [_ [_ Hother]]]].
    rewrite Hx. simpl. rewrite Hother; [reflexivity | |]; intros; discriminate.
  - destruct (Hext ok_result ok_response eq_refl eq_refl) as [r' [Hx [Hobj _]]].
    rewrite Hx. simpl.
    rewrite (Hobj [("result", JObj [("id", JNum 42)])] None); reflexivity.
Defined.

(** C8, the claim refuted: a fresh Result with a response has a nil mapping,
    and so has a Result whose null body was extracted. *)
Lemma Values_nil_although_response :
  Values ok_result = None /\ Response ok_result <> None
  /\ extractValues (newResult None (Some null_response))
     = Ret (newResult None (Some null_response)).
Proof. split; [reflexivity|]. split; [discriminate | reflexivity]. Qed.

(** C9 at status 400: the error text holds the status line and the body. *)
Lemma Error_of_status_400 :
  Error (newResult (H := lib) None (Some bad_response))
  = Ret (Some ("status code(400 Bad Request) "
               ++ js "{'code':1,'msg':'bad','data':{'x':1}}"))
  /\ contains "400" ("status code(400 Bad Request) "
                     ++ js "{'code':1,'msg':'bad','data':{'x':1}}") = true
  /\ contains "bad" ("status code(400 Bad Request) "
                     ++ js "{'code':1,'msg':'bad','data':{'x':1}}") = true.
Proof.
  split; [|split; reflexivity].
  apply (Error_status (newResult None (Some bad_response)) bad_response);
    [reflexivity | reflexivity | discriminate].
Qed.

(** Cleaning [/a/../b//c/.] gives [/b/c], and cleaning that changes nothing. *)
Lemma Clean_on_a_rooted_path :
  filepath_Clean "/a/../b//c/." = "/b/c"
  /\ filepath_Clean (filepath_Clean "/a/../b//c/.") = filepath_Clean "/a/../b//c/.".
Proof.
  split; [reflexivity|]. apply Clean_idempotent_rooted. reflexivity.
Qed.

(** C10 at a fresh client and one whose lock is held and whose auth is set. *)
Lemma auth_unused_witness :
  auth (New "http://host") = None
  /\ POST (New "http://host") "/users" bob [] []
     = POST (busy_client "http://host") "/users" bob [] []
  /\ GET (New "http://host") "/users" bob [] []
     = GET (busy_client "http://host") "/users" bob [] []
  /\ DELETE (New "http://host") "/users" bob [] []
     = DELETE (busy_client "http://host") "/users" bob [] [].
Proof.
  destruct (auth_unused (New "http://host") (busy_client "http://host")
              "/users" bob [] [] eq_refl) as [Hnew Hverbs].
  split; [apply Hnew | exact Hverbs].
Defined.

#[local] Existing Instance fmt_s.
#[local] Existing Instance ints_payload.
#[local] Existing Instance ints_network.

(** A [Value] call on the example Result: error and response stay, and the
    extracted Result is final. *)
Lemma Value_keeps_the_Result_witness :
  err ok_result_extracted = err ok_result
  /\ resp ok_result_extracted = resp ok_result
  /\ (forall m, values ok_result = Some m -> values ok_result_extracted = Some m)
  /\ (forall (T2 : Type) (H2 : Target T2) (key2 : string) (v2 : T2) out,
        Value key2 v2 ok_result_extracted = Ret out -> out.2 = ok_result_extracted).
Proof.
  apply (Value_keeps_the_Result "result" {| id := 0 |} {| id := 42 |}
           ok_result ok_result_extracted None).
  reflexivity.
Defined.

(** The second read of [result] gives what the first gave. *)
Lemma Value_repeated_witness :
  Value "result" {| id := 0 |} ok_result_extracted
  = Ret (None, {| id := 42 |}, ok_result_extracted).
Proof.
  apply (Value_repeated "result" {| id := 0 |} {| id := 42 |} ok_result). reflexivity.
Defined.

(** With the network of the examples, a GET without options returns, and
    its Result is safe to ask. *)
Lemma verb_Result_never_panics_witness :
  exists r net',
    GET (New "http://host") "/users" bob [] [] = Ret (r, net')
    /\ (err r <> None \/ resp r <> None)
    /\ (exists b, OK r = Ret b /\ Fail r = Ret (negb b))
    /\ (exists e, Error r = Ret e).
Proof.
  destruct (verb_Result_never_panics "GET" GET (New "http://host") "/users" bob [] [])
    as [Hret Hsafe].
  - right. left. reflexivity.
  - intros sent s. discriminate.
  - destruct (Hret eq_refl) as [r [net' Hv]]. exists r, net'.
    split; [exact Hv | apply (Hsafe r net' Hv)].
Defined.

(** A POST to a base URL that does not parse returns with nothing sent; a
    POST with a token option panics. *)
Lemma verb_sends_at_most_once_witness :
  (exists r, POST (New "://host") "/x" bob [] [] = Ret (r, []))
  /\ POST (New "http://host") "/x" bob [WithJWToken "t"] [] = Panic.
Proof.
  split.
  - destruct (verb_sends_at_most_once "POST" POST (New "://host") "/x" bob [] []
                (or_introl eq_refl)) as [_ [_ [_ [_ [Hpost _]]]]].
    apply Hpost. split; [reflexivity|]. eexists. reflexivity.
  - destruct (verb_sends_at_most_once "POST" POST (New "http://host") "/x" bob
                [WithJWToken "t"] [] (or_introl eq_refl)) as [_ [Hpanic _]].
    apply Hpanic. reflexivity.
Defined.

(** A GET with an auth that returns on the nil request is the GET without
    options: no Authorization header reaches the transport. *)
Lemma options_without_effect_witness :
  GET (New "http://host") "/users" bob [WithAuth careful] []
  = GET (New "http://host") "/users" bob [] []
  /\ (forall r s,
        GET (New "http://host") "/users" bob [WithAuth careful] [] = Ret (r, [s]) ->
        RawRequest (sent_Request s) = None).
Proof.
  apply (options_without_effect "GET" GET (New "http://host") "/users" bob
           [WithAuth careful] []).
  - right. left. reflexivity.
  - reflexivity.
Defined.

(** The verbs of client.go with a token option: POST panics, and so does
    GET once the payload is decoded. *)
Lemma ClientGo_options_on_nil_request_witness :
  ClientGo.POST (New "http://host") "/users" bob [WithJWToken "t"] [] = Panic
  /\ ClientGo.GET (New "http://host") "/users" (None : option (list Z))
       [WithJWToken "t"] [] = Panic.
Proof.
  split.
  - destruct (ClientGo_options_on_nil_request (New "http://host") "/users" bob
                [WithJWToken "t"] []) as [Hpanic _].
    apply (Hpanic "t"). left. reflexivity.
  - destruct (ClientGo_options_on_nil_request (New "http://host") "/users"
                (None : option (list Z)) [WithJWToken "t"] []) as [Hpanic _].
    destruct (Hpanic "t" (or_introl eq_refl)) as [_ Hquery].
    apply (Hquery "null" None); reflexivity.
Defined.

(** The nil slice gives the empty query map, a slice of numbers an error. *)
Lemma requestToMap_by_kind_witness :
  requestToMap (None : option (list Z)) = (Some ∅, None)
  /\ requestToMap (Some [1; 2])
     = (None, Some ("json: cannot unmarshal array into Go value of type "
                    ++ "map[string]interface {}")).
Proof.
  split.
  - destruct (requestToMap_by_kind (None : option (list Z)) "null" eq_refl)
      as [Hnull _]. apply Hnull. reflexivity.
  - destruct (requestToMap_by_kind (Some [1; 2]) "[1,2]" eq_refl)
      as [_ [_ [_ [_ Hother]]]].
    apply (Hother (JArr [JNum 1; JNum 2]) None); [reflexivity | discriminate |].
    intros members. discriminate.
Defined.

(** [handleResult] on the example response. *)
Lemma handleResult_success_witness :
  exists rp members data buff,
    Some ok_response = Some rp /\ resp_StatusCode rp = 200
    /\ json_decode (resp_Body rp) = Decoded (JObj members) None
    /\ store_members members ∅ !! "result" = Some data
    /\ json_Marshal_value data = Ok buff
    /\ json_Unmarshal buff {| id := 0 |} = ({| id := 42 |}, None).
Proof.
  apply (handleResult_success (Some ok_response) "result" {| id := 0 |} {| id := 42 |}).
  reflexivity.
Defined.

(** [handleResult] and [Value] on the example response. *)
Lemma handleResult_agrees_with_Value_witness :
  Value "result" {| id := 0 |} ok_result
  = (x ← ClientGo.handleResult (Some ok_response) "result" {| id := 0 |};
     mret (x.1, x.2,
           set_values (Unmarshal_map (resp_Body ok_response) (Some ∅)).1 ok_result))
  /\ ClientGo.handleResult (Some ok_response) "result" {| id := 0 |}
     = Ret (None, {| id := 42 |})
  /\ ClientGo.handleResult (Some bad_response) "data" {| id := 0 |}
     = Ret (Some "http code(400 Bad Request) code(1) errmsg bad", {| id := 0 |}).
Proof.
  split; [|split; reflexivity].
  apply (handleResult_agrees_with_Value ok_response None "result" {| id := 0 |});
    reflexivity.
Defined.

(** A base URL without path gets the path [.]. *)
Lemma checkURL_path_witness :
  (exists u', checkURL "http://host" = (URL_String u', None)
     /\ Path u' = filepath_Clean ""
     /\ (Scheme u', Opaque u', Host u', RawPath u', RawQuery u', Fragment u')
        = ("http", "", "host", "", "", "")
     /\ Path u' <> ""
     /\ (Path u' = "/" \/ ends_with_slash (Path u') = false)
     /\ ("" = "" -> Path u' = ".")
     /\ (is_rooted "" = true -> is_rooted (Path u') = true))
  /\ checkURL "http://host" = ("http://host/.", None)
  /\ checkURL "http://host/users/" = ("http://host/users", None).
Proof.
  split; [|split; reflexivity].
  apply (checkURL_path "http://host"
           {| Scheme := "http"; Opaque := ""; Host := "host"; Path := "";
              RawPath := ""; RawQuery := ""; Fragment := "" |}).
  reflexivity.
Defined.

End Examples.

(** * A network that refuses the connection *)
Module Refused.
Import Demo.
#[local] Existing Instance lib.
#[local] Existing Instance listing_payload.
#[local] Existing Instance refused.

(** The error of the transport is the error of the Result, and the response
    that came with it, of status 0 and empty body, is its response. *)
Lemma transport_error_verbatim_witness :
  exists r s,
    POST (New "http://127.0.0.1") "/users" bob [] [] = Ret (r, [s])
    /\ Error r = Ret (Some refused_error)
    /\ Fail r = Ret true
    /\ OK r = Ret false
    /\ Response r
       = Some {| resp_StatusCode := 0; resp_Status := ""; resp_Body := "" |}.
Proof.
  do 2 eexists. split; [reflexivity|].
  eapply (transport_error_verbatim "POST" POST (New "http://127.0.0.1") "/users" bob
            [] []).
  - left. reflexivity.
  - reflexivity.
  - reflexivity.
Defined.

End Refused.
